(** * Student record service (node.js): CSV codec, file store and HTTP handlers

    A shallow embedding of [src/node.js].  JavaScript strings are modelled as
    Rocq strings whose characters stand for the UTF-16 code units 0..255;
    objects are ordered association lists that follow the property order of
    [Object.keys]; the file system is an explicit state; promises and
    exceptions are explicit outcome types. *)

From Stdlib Require Import String Ascii List Bool Arith NArith Lia.
Import ListNotations.
Local Open Scope string_scope.
Local Open Scope list_scope.
Local Open Scope nat_scope.

(* ================================================================= *)
(** ** JavaScript strings *)

Definition comma : ascii := ","%char.
Definition newline : ascii := "010"%char.

(** White space and line terminators removed by [String.prototype.trim],
    for code units below 256: TAB, LF, VT, FF, CR, SP and NBSP. *)
Definition is_white (c : ascii) : bool :=
  let n := nat_of_ascii c in
  ((9 <=? n) && (n <=? 13)) || (n =? 32) || (n =? 160).

Fixpoint trimStart (s : string) : string :=
  match s with
  | EmptyString => EmptyString
  | String c s' => if is_white c then trimStart s' else s
  end.

Fixpoint trimEnd (s : string) : string :=
  match s with
  | EmptyString => EmptyString
  | String c s' =>
      match trimEnd s' with
      | EmptyString => if is_white c then EmptyString else String c EmptyString
      | r => String c r
      end
  end.

Definition trim (s : string) : string := trimEnd (trimStart s).

(** [s.split(sep)] for a one-character separator: never the empty array. *)
Fixpoint split (sep : ascii) (s : string) : list string :=
  match s with
  | EmptyString => [EmptyString]
  | String c s' =>
      if Ascii.eqb c sep then EmptyString :: split sep s'
      else match split sep s' with
           | [] => [String c EmptyString]
           | piece :: rest => String c piece :: rest
           end
  end.

(** [arr.join(sep)] on an array of strings. *)
Fixpoint join (sep : ascii) (l : list string) : string :=
  match l with
  | [] => EmptyString
  | [x] => x
  | x :: rest => (x ++ String sep (join sep rest))%string
  end.

(** [toLowerCase] on code units below 256: A-Z and the Latin-1 capitals. *)
Definition lower_char (c : ascii) : ascii :=
  let n := nat_of_ascii c in
  if ((65 <=? n) && (n <=? 90))
     || ((192 <=? n) && (n <=? 214))
     || ((216 <=? n) && (n <=? 222))
  then ascii_of_nat (n + 32) else c.

Fixpoint toLowerCase (s : string) : string :=
  match s with
  | EmptyString => EmptyString
  | String c s' => String (lower_char c) (toLowerCase s')
  end.

(** [req.method.toUpperCase()]: HTTP method tokens are ASCII. *)
Definition upper_char (c : ascii) : ascii :=
  let n := nat_of_ascii c in
  if (97 <=? n) && (n <=? 122) then ascii_of_nat (n - 32) else c.

Fixpoint toUpperCase (s : string) : string :=
  match s with
  | EmptyString => EmptyString
  | String c s' => String (upper_char c) (toUpperCase s')
  end.

(** [s.includes(sub)]. *)
Fixpoint includes (s sub : string) : bool :=
  prefix sub s ||
  match s with
  | EmptyString => false
  | String _ s' => includes s' sub
  end.

(** Truthiness of a string: only the empty string is falsy. *)
Definition truthy (s : string) : bool :=
  match s with EmptyString => false | _ => true end.

(** The string has no occurrence of the character. *)
Fixpoint no_char (c : ascii) (s : string) : bool :=
  match s with
  | EmptyString => true
  | String a s' => negb (Ascii.eqb a c) && no_char c s'
  end.

(** First character is not white space / last character is not white space
    (both false on the empty string). *)
Definition starts_solid (s : string) : bool :=
  match s with
  | EmptyString => false
  | String c _ => negb (is_white c)
  end.

Fixpoint ends_solid (s : string) : bool :=
  match s with
  | EmptyString => false
  | String c EmptyString => negb (is_white c)
  | String _ s' => ends_solid s'
  end.

(* ================================================================= *)
(** ** JavaScript values, errors and objects *)

(** Field values: a string, or the array of strings that [querystring.parse]
    and [url.parse] produce for a repeated key. *)
Inductive jsval : Type :=
| VStr (s : string)
| VArr (l : list string).

(** [ToString] as applied by [Array.prototype.join] to each element. *)
Definition to_str (v : jsval) : string :=
  match v with
  | VStr s => s
  | VArr l => join comma l
  end.

Inductive errcode : Type := ENOENT | EACCES | EISDIR | EIO.

Inductive js_error : Type :=
| SysError (code : errcode)
| TypeError
| HeadersSent.

(** Synchronous evaluation that may throw. *)
Inductive result (A : Type) : Type :=
| Ok (a : A)
| Throw (e : js_error).
Arguments Ok {A} a.
Arguments Throw {A} e.

Definition bind {A B} (m : result A) (k : A -> result B) : result B :=
  match m with
  | Ok a => k a
  | Throw e => Throw e
  end.

Notation "x <- m ;; k" := (bind m (fun x => k))
  (at level 61, m at next level, right associativity).

(** [arr.map(f)] where [f] may throw: the first exception aborts the map. *)
Fixpoint mapM {A B} (f : A -> result B) (l : list A) : result (list B) :=
  match l with
  | [] => Ok []
  | a :: rest => b <- f a ;; bs <- mapM f rest ;; Ok (b :: bs)
  end.

(** [arr.filter(p)] where [p] may throw. *)
Fixpoint filterM {A} (p : A -> result bool) (l : list A) : result (list A) :=
  match l with
  | [] => Ok []
  | a :: rest =>
      keep <- p a ;; kept <- filterM p rest ;;
      Ok (if keep then a :: kept else kept)
  end.

(** An object: its own properties in the order [Object.keys] lists them. *)
Definition jsobj : Type := list (string * jsval).

Definition keys (o : jsobj) : list string := map fst o.
Definition values (o : jsobj) : list jsval := map snd o.

(** [o[k]] for an own property; [None] is [undefined]. *)
Fixpoint obj_get (k : string) (o : jsobj) : option jsval :=
  match o with
  | [] => None
  | (k', v) :: rest => if String.eqb k' k then Some v else obj_get k rest
  end.

Definition is_digit (c : ascii) : bool :=
  let n := nat_of_ascii c in (48 <=? n) && (n <=? 57).

Fixpoint digits_value (acc : N) (s : string) : option N :=
  match s with
  | EmptyString => Some acc
  | String c s' =>
      if is_digit c
      then digits_value (acc * 10 + N.of_nat (nat_of_ascii c - 48)) s'
      else None
  end.

(** A property key is an array index when it is the canonical decimal
    numeral of an integer in 0 .. 2^32 - 2. *)
Definition array_index (k : string) : option N :=
  match k with
  | EmptyString => None
  | String c rest =>
      if Ascii.eqb c "0"%char && truthy rest then None
      else if 10 <? String.length k then None
      else match digits_value 0 k with
           | Some n => if (n <? 4294967295)%N then Some n else None
           | None => None
           end
  end.

(** [key_before a b]: own property [a] is listed before own property [b]
    when both exist and [b] was created later: array indices ascending,
    then the other keys in creation order. *)
Definition key_before (a b : string) : bool :=
  match array_index a, array_index b with
  | Some m, Some n => (m <? n)%N
  | Some _, None => true
  | None, Some _ => false
  | None, None => true
  end.

Fixpoint obj_replace (k : string) (v : jsval) (o : jsobj) : jsobj :=
  match o with
  | [] => []
  | (k', v') :: rest =>
      if String.eqb k' k then (k', v) :: rest
      else (k', v') :: obj_replace k v rest
  end.

Fixpoint obj_insert (k : string) (v : jsval) (o : jsobj) : jsobj :=
  match o with
  | [] => [(k, v)]
  | (k', v') :: rest =>
      if key_before k' k then (k', v') :: obj_insert k v rest
      else (k, v) :: o
  end.

(** Define-or-update of an own data property. *)
Definition obj_set (k : string) (v : jsval) (o : jsobj) : jsobj :=
  match obj_get k o with
  | Some _ => obj_replace k v o
  | None => obj_insert k v o
  end.

(** [o[k] = v] on an object literal [{}], whose prototype is
    [Object.prototype]: the key [__proto__] reaches the inherited setter,
    which ignores a value that is not an object, so no property is made. *)
Definition obj_assign (k : string) (v : jsval) (o : jsobj) : jsobj :=
  if String.eqb k "__proto__" then o else obj_set k v o.

(** Keys in the order an object can list them. *)
Fixpoint js_ordered (ks : list string) : bool :=
  match ks with
  | [] => true
  | k :: rest => forallb (key_before k) rest && js_ordered rest
  end.

Fixpoint distinct (ks : list string) : bool :=
  match ks with
  | [] => true
  | k :: rest => negb (existsb (String.eqb k) rest) && distinct rest
  end.

(** The association list is the property list of some object. *)
Definition wf_obj (o : jsobj) : bool :=
  distinct (keys o) && js_ordered (keys o).

(* ================================================================= *)
(** ** The file system and the process state *)

(** What the path holds: nothing; a regular file that can be read and
    written; something on which every operation fails with the given code
    (a directory, a file without permission, a path whose parent directory
    is missing, ...); or a file that can be read but cannot be opened for
    writing, which fails with the given code (a read-only file). *)
Inductive file_state : Type :=
| Absent
| Present (data : string)
| Faulty (code : errcode)
| Locked (data : string) (code : errcode).

(** The [(err, data)] pair handed to a callback. *)
Inductive io (A : Type) : Type :=
| Done (a : A)
| Failed (code : errcode).
Arguments Done {A} a.
Arguments Failed {A} code.

Definition readFile (f : file_state) : io string :=
  match f with
  | Absent => Failed ENOENT
  | Present data => Done data
  | Faulty code => Failed code
  | Locked data _ => Done data
  end.

Definition writeFile (f : file_state) (data : string)
  : file_state * option errcode :=
  match f with
  | Faulty code => (f, Some code)
  | Locked _ code => (f, Some code)
  | _ => (Present data, None)
  end.

(** [students.csv], [index.html] and the actions sent to [dataEmitter]. *)
Record world : Type := mkWorld {
  csv : file_state;
  index_html : file_state;
  events : list string
}.

Definition set_csv (f : file_state) (w : world) : world :=
  mkWorld f (index_html w) (events w).

Definition emit (action : string) (w : world) : world :=
  mkWorld (csv w) (index_html w) (events w ++ [action]).

(** How a promise built round a callback ends: resolved, rejected, or the
    callback threw.  The callback runs outside the promise executor, so its
    exception is uncaught: the promise stays pending and the process ends. *)
Inductive promise (A : Type) : Type :=
| Resolved (a : A)
| Rejected (e : js_error)
| Uncaught (e : js_error).
Arguments Resolved {A} a.
Arguments Rejected {A} e.
Arguments Uncaught {A} e.

(* ================================================================= *)
(** ** getStudents *)

(** The [headers.forEach((header, index) => ...)] loop of one row:
    [values[index]] is [undefined] past the end of [values], and
    [undefined.trim()] throws. *)
Fixpoint assign_fields (headers : list string) (index : nat)
    (values : list string) (student : jsobj) : result jsobj :=
  match headers with
  | [] => Ok student
  | header :: rest =>
      match nth_error values index with
      | None => Throw TypeError
      | Some value =>
          assign_fields rest (S index) values
            (obj_assign (trim header) (VStr (trim value)) student)
      end
  end.

Definition parse_row (headers : list string) (row : string) : result jsobj :=
  let values := split comma row in
  assign_fields headers 0 values [].

(** The "Parse CSV data" part of the [readFile] callback. *)
Definition parse_csv (data : string) : result (list jsobj) :=
  let rows := split newline (trim data) in
  match rows with
  | [] => Throw TypeError
  | first :: rows =>
      let headers := split comma first in
      mapM (parse_row headers) rows
  end.

Definition getStudents (w : world) : promise (list jsobj) :=
  match readFile (csv w) with
  | Failed code =>
      match code with
      | ENOENT => Resolved []
      | _ => Rejected (SysError code)
      end
  | Done data =>
      if negb (truthy data) then Resolved []
      else match parse_csv data with
           | Ok students => Resolved students
           | Throw e => Uncaught e
           end
  end.

(* ================================================================= *)
(** ** saveStudents *)

Definition header_line (student : jsobj) : string := join comma (keys student).

Definition row_line (student : jsobj) : string :=
  join comma (map to_str (values student)).

(** The template [`${headers}\n${rows.join('\n')}`]. *)
Definition csvContent (first : jsobj) (students : list jsobj) : string :=
  let headers := header_line first in
  let rows := map row_line students in
  (headers ++ String newline (join newline rows))%string.

Definition write_csv (data : string) (w : world) : world * promise unit :=
  match writeFile (csv w) data with
  | (f, None) => (set_csv f w, Resolved tt)
  | (f, Some code) => (set_csv f w, Rejected (SysError code))
  end.

Definition saveStudents (students : list jsobj) (w : world)
  : world * promise unit :=
  match students with
  | [] => write_csv "name,roll,marks" w
  | first :: _ => write_csv (csvContent first students) w
  end.

(** The text [saveStudents] hands to [fs.writeFile]. *)
Definition serialize (students : list jsobj) : string :=
  match students with
  | [] => "name,roll,marks"
  | first :: _ => csvContent first students
  end.

(* ================================================================= *)
(** ** Requests and responses *)

(** A request after [url.parse(req.url, true)]: the method, the pathname,
    the [name] entry of the query if any, and the whole body. *)
Record request : Type := mkRequest {
  method : string;
  pathname : string;
  query_name : option jsval;
  body : string
}.

(** The argument of [JSON.stringify], kept as data. *)
Inductive json : Type :=
| JList (students : list jsobj)
| JMessage (message : string)
| JFailure (message : string) (error : js_error)
| JAdded (message : string) (student : jsobj).

Inductive content : Type :=
| NoBody
| Raw (data : string)
| Json (j : json).

Record response : Type := mkResponse {
  status : nat;
  headers : list (string * string);
  payload : content
}.

(** What the process does with a request: it answers, or an exception
    reaches the event loop and the process terminates. *)
Inductive outcome : Type :=
| Responded (r : response)
| Crashed (e : js_error).

Definition cors : list (string * string) :=
  [ ("Access-Control-Allow-Origin", "*");
    ("Access-Control-Allow-Methods", "GET, POST, OPTIONS");
    ("Access-Control-Allow-Headers", "Content-Type") ].

(** The body of the answer, when there is one. *)
Definition payload_of (o : outcome) : option content :=
  match o with
  | Responded r => Some (payload r)
  | Crashed _ => None
  end.

Definition reply (code : nat) (ctype : string) (c : content) : outcome :=
  Responded (mkResponse code (cors ++ [("Content-Type", ctype)]) c).

Definition reply_json (code : nat) (j : json) : outcome :=
  reply code "application/json" (Json j).

(** [!name] on the destructured query entry. *)
Definition missing (name : option jsval) : bool :=
  match name with
  | None => true
  | Some (VStr s) => negb (truthy s)
  | Some (VArr _) => false
  end.

(** [s.name.toLowerCase().includes(name.toLowerCase())]: a record without an
    own [name] reads [undefined], and an array has no [toLowerCase]. *)
Definition name_matches (name : jsval) (s : jsobj) : result bool :=
  match obj_get "name" s with
  | Some (VStr n) =>
      let lowered := toLowerCase n in
      match name with
      | VStr q => Ok (includes lowered (toLowerCase q))
      | VArr _ => Throw TypeError
      end
  | Some (VArr _) => Throw TypeError
  | None => Throw TypeError
  end.

(* ================================================================= *)
(** ** The request handlers *)

Definition list_handler (w : world) : world * outcome :=
  match getStudents w with
  | Resolved students => (w, reply_json 200 (JList students))
  | Rejected e => (w, reply_json 500 (JFailure "Error fetching students" e))
  | Uncaught e => (w, Crashed e)
  end.

(** An Add request between its suspension points: the body is complete,
    [await getStudents()] has resumed, or the request is over. *)
Inductive add_state : Type :=
| AddReceived (newStudent : jsobj)
| AddLoaded (students : list jsobj) (newStudent : jsobj)
| AddFinished (o : outcome).

Definition add_failed (e : js_error) : outcome :=
  reply_json 500 (JFailure "Error adding student" e).

Definition add_store (w : world) (students : list jsobj) (newStudent : jsobj)
  : world * outcome :=
  let students := students ++ [newStudent] in
  match saveStudents students w with
  | (w', Resolved _) =>
      (emit "added" w',
       reply_json 201 (JAdded "Student added successfully" newStudent))
  | (w', Rejected e) => (w', add_failed e)
  | (w', Uncaught e) => (w', Crashed e)
  end.

(** One resumption of an Add request. *)
Definition add_step (w : world) (st : add_state) : world * add_state :=
  match st with
  | AddReceived newStudent =>
      match getStudents w with
      | Resolved students => (w, AddLoaded students newStudent)
      | Rejected e => (w, AddFinished (add_failed e))
      | Uncaught e => (w, AddFinished (Crashed e))
      end
  | AddLoaded students newStudent =>
      let (w', o) := add_store w students newStudent in (w', AddFinished o)
  | AddFinished o => (w, st)
  end.

(** An Add request that runs with no other request in between. *)
Definition add_handler (w : world) (newStudent : jsobj) : world * outcome :=
  match getStudents w with
  | Resolved students => add_store w students newStudent
  | Rejected e => (w, add_failed e)
  | Uncaught e => (w, Crashed e)
  end.

Definition search_handler (w : world) (name : option jsval)
  : world * outcome :=
  match name with
  | None => (w, reply_json 400 (JMessage "Name query parameter is required"))
  | Some q =>
      if missing name
      then (w, reply_json 400 (JMessage "Name query parameter is required"))
      else
        match getStudents w with
        | Resolved students =>
            match filterM (name_matches q) students with
            | Ok results => (w, reply_json 200 (JList results))
            | Throw e =>
                (w, reply_json 500 (JFailure "Error searching students" e))
            end
        | Rejected e =>
            (w, reply_json 500 (JFailure "Error searching students" e))
        | Uncaught e => (w, Crashed e)
        end
  end.

Definition dquote : ascii := "034"%char.

(** The header value [attachment; filename=] followed by the quoted name. *)
Definition disposition : string :=
  ("attachment; filename="
   ++ String dquote ("students.csv" ++ String dquote EmptyString))%string.

(** [fs.createReadStream(csvFilePath).pipe(res)]: the stream has no
    ['error'] listener, so a failure to open or read is thrown by the
    emitter and nothing catches it. *)
Definition export_handler (w : world) : world * outcome :=
  match readFile (csv w) with
  | Done data =>
      (w, Responded (mkResponse 200
            (cors ++ [("Content-Type", "text/csv");
                      ("Content-Disposition", disposition)])
            (Raw data)))
  | Failed code => (w, Crashed (SysError code))
  end.

(** [req.pipe(fs.createWriteStream(csvFilePath))] for a body that arrives
    in one piece.  Creating the stream opens the file with flag [w], which
    empties it when the store accepts writes.  The ['end'] listener of the
    request runs before any callback of the stream: it emits [imported] and
    answers 200 whether or not the bytes will reach the file. *)
Definition upload_handler (w : world) (data : string) : world * outcome :=
  match writeFile (csv w) EmptyString with
  | (f, _) =>
      (emit "imported" (set_csv f w),
       reply_json 200 (JMessage "File uploaded successfully"))
  end.

(** What the write stream of an Import does after the 200 was sent: the
    bytes are flushed to the file; or the stream fails, and its ['error']
    listener calls [res.writeHead(500)] on a response whose headers are
    sent, which throws, and nothing catches that. *)
Definition upload_settle (w : world) (data : string)
  : world * option js_error :=
  match writeFile (csv w) data with
  | (f, None) => (set_csv f w, None)
  | (f, Some code) => (set_csv f w, Some HeadersSent)
  end.

Definition index_handler (w : world) : world * outcome :=
  match readFile (index_html w) with
  | Failed _ => (w, reply 500 "text/plain" (Raw "Error loading index.html"))
  | Done data => (w, reply 200 "text/html" (Raw data))
  end.

Section Server.

(** [querystring.parse] of the Node library. *)
Variable querystring_parse : string -> jsobj.

Definition server (w : world) (req : request) : world * outcome :=
  let pathname := pathname req in
  let method := toUpperCase (method req) in
  if (method =? "OPTIONS")%string then
    (w, Responded (mkResponse 204 cors NoBody))
  else if (pathname =? "/")%string && (method =? "GET")%string then
    index_handler w
  else if (pathname =? "/students")%string && (method =? "GET")%string then
    list_handler w
  else if (pathname =? "/add")%string && (method =? "POST")%string then
    add_handler w (querystring_parse (body req))
  else if (pathname =? "/search")%string && (method =? "GET")%string then
    search_handler w (query_name req)
  else if (pathname =? "/export")%string && (method =? "GET")%string then
    export_handler w
  else if (pathname =? "/upload")%string && (method =? "POST")%string then
    upload_handler w (body req)
  else
    (w, reply_json 404 (JMessage "Route not found")).

End Server.

(** Two Add requests resumed in the order the schedule gives ([false] the
    first request, [true] the second). *)
Fixpoint run_adds (schedule : list bool) (w : world) (a b : add_state)
  : world * add_state * add_state :=
  match schedule with
  | [] => (w, a, b)
  | false :: rest => let (w', a') := add_step w a in run_adds rest w' a' b
  | true :: rest => let (w', b') := add_step w b in run_adds rest w' a b'
  end.

(* ================================================================= *)
(** ** Conditions on tables used by the round-trip statements *)

(** A column name that survives the header line: no separator inside, no
    white space around it, and not the inherited accessor [__proto__]. *)
Definition plain_key (k : string) : bool :=
  no_char comma k && no_char newline k
  && (trim k =? k)%string && negb (k =? "__proto__")%string.

(** A field value that survives a row line: a string with no separator
    inside and no white space around it. *)
Definition plain_value (v : jsval) : bool :=
  match v with
  | VStr s => no_char comma s && no_char newline s && (trim s =? s)%string
  | VArr _ => false
  end.

(** [data.trim()] leaves the serialized text alone: there are two columns
    or more, or the only column has a non-empty name and a non-empty value
    in the last record. *)
Definition edges_kept (t : list jsobj) : Prop :=
  match t with
  | [] => True
  | first :: _ =>
      2 <= length first \/
      (length first = 1 /\ header_line first <> EmptyString
       /\ row_line (last t first) <> EmptyString)
  end.

(** The hypotheses of the round-trip property as the specification words
    them: one column set for all records, and no comma or newline inside a
    field value. *)
Definition same_column_set (t : list jsobj) : Prop :=
  forall r r', In r t -> In r' t ->
    forall k, In k (keys r) <-> In k (keys r').

Definition no_embedded_separator (t : list jsobj) : Prop :=
  forall r v, In r t -> In v (values r) ->
    no_char comma (to_str v) = true /\ no_char newline (to_str v) = true.

(** [sub] occurs in [s]. *)
Definition substring_of (sub s : string) : Prop :=
  exists pre post, s = (pre ++ sub ++ post)%string.

(** The record's [name] contains the query, letter case ignored. *)
Definition name_contains (q : string) (s : jsobj) : Prop :=
  exists n, obj_get "name" s = Some (VStr n)
            /\ substring_of (toLowerCase q) (toLowerCase n).

(** The decision the Search filter takes on a record with a string name. *)
Definition name_hit (q : string) (s : jsobj) : bool :=
  match obj_get "name" s with
  | Some (VStr n) => includes (toLowerCase n) (toLowerCase q)
  | _ => false
  end.

Definition has_name (s : jsobj) : Prop :=
  exists n, obj_get "name" s = Some (VStr n).

(** The store accepts a write (it is not in a failing state). *)
Definition writable (f : file_state) : Prop :=
  match f with Faulty _ => False | Locked _ _ => False | _ => True end.

(** The request reaches the branch of [server] for this verb and path. *)
Definition routed (verb path : string) (req : request) : Prop :=
  toUpperCase (method req) = verb /\ pathname req = path.

(* ================================================================= *)
(** ** Sample data *)

Definition student_A : jsobj :=
  [("name", VStr "A"); ("roll", VStr "1"); ("marks", VStr "90")].

Definition student_B : jsobj :=
  [("name", VStr "B"); ("roll", VStr "2"); ("marks", VStr "80")].

(** A record whose roll number was typed with a leading blank. *)
Definition student_padded : jsobj :=
  [("name", VStr "A"); ("roll", VStr " 1"); ("marks", VStr "90")].

Definition lines (l : list string) : string := join newline l.

(** A file whose only data row lacks the [marks] field. *)
Definition short_row_file : string := lines ["name,roll,marks"; "A,1"].

Definition names_file : string := lines ["name"; "Alice"; "bob"].

(** A file whose header has no [name] column. *)
Definition nameless_file : string := lines ["roll,marks"; "1,90"].

Definition disk (f : file_state) : world := mkWorld f Absent [].

Definition form_B (body : string) : jsobj := student_B.

Definition student_C : jsobj :=
  [("name", VStr "C"); ("roll", VStr "3"); ("marks", VStr "70")].

Definition form_padded (body : string) : jsobj := student_padded.

(** Files that hold one record. *)
Definition file_A : string := lines ["name,roll,marks"; "A,1,90"].

Definition file_B : string := lines ["name,roll,marks"; "B,2,80"].

(** The headers of a JSON answer. *)
Definition json_headers : list (string * string) :=
  [ ("Access-Control-Allow-Origin", "*");
    ("Access-Control-Allow-Methods", "GET, POST, OPTIONS");
    ("Access-Control-Allow-Headers", "Content-Type");
    ("Content-Type", "application/json") ].

(* ================================================================= *)
(** ** Further conditions on files, rows and requests *)

(** Every character is one that [trim] removes. *)
Fixpoint all_white (s : string) : bool :=
  match s with
  | EmptyString => true
  | String c s' => is_white c && all_white s'
  end.

(** The row has a field for every header name. *)
Definition enough_fields (headers : list string) (row : string) : bool :=
  length headers <=? length (split comma row).

(** The lines of a file as [getStudents] cuts them, the header names and
    the data rows. *)
Definition file_lines (data : string) : list string :=
  split newline (trim data).

Definition file_headers (data : string) : list string :=
  split comma (hd EmptyString (file_lines data)).

Definition file_rows (data : string) : list string := tl (file_lines data).

(** The request matches a branch of [server] other than the last one. *)
Definition known_route (req : request) : bool :=
  let m := toUpperCase (method req) in
  let p := pathname req in
  (m =? "OPTIONS")%string
  || ((p =? "/")%string && (m =? "GET")%string)
  || ((p =? "/students")%string && (m =? "GET")%string)
  || ((p =? "/add")%string && (m =? "POST")%string)
  || ((p =? "/search")%string && (m =? "GET")%string)
  || ((p =? "/export")%string && (m =? "GET")%string)
  || ((p =? "/upload")%string && (m =? "POST")%string).

(** A field value that is a string [trim] leaves alone. *)
Definition trimmed_string (v : jsval) : Prop :=
  exists s, v = VStr s /\ trim s = s.


(** Sample files and records. *)
Definition long_row_file : string :=
  lines [" name , roll,name"; "A, 1 ,B,extra"].

Definition padded_file : string :=
  (String newline (" " ++ names_file ++ String newline " "))%string.

Definition student_short : jsobj := [("name", VStr "C")].




(* ================================================================= *)
(** ** Strings: split, join and trim *)

Lemma split_not_nil (c : ascii) (s : string) : split c s <> [].
Proof.
  destruct s as [|a s]; simpl; [discriminate|].
  destruct (Ascii.eqb a c); [discriminate|].
  destruct (split c s); discriminate.
Qed.

Lemma split_no_sep (c : ascii) (s : string) :
  no_char c s = true -> split c s = [s].
Proof.
  induction s as [|a s IH]; simpl; intros H; [reflexivity|].
  apply andb_true_iff in H as [Ha Hs].
  apply negb_true_iff in Ha. rewrite Ha, (IH Hs). reflexivity.
Qed.

Lemma split_app_sep (c : ascii) (x rest : string) :
  no_char c x = true ->
  split c (x ++ String c rest) = x :: split c rest.
Proof.
  induction x as [|a x IH]; simpl; intros H.
  - rewrite Ascii.eqb_refl. reflexivity.
  - apply andb_true_iff in H as [Ha Hx].
    apply negb_true_iff in Ha. rewrite Ha, (IH Hx). reflexivity.
Qed.

Lemma join_cons2 (c : ascii) (x y : string) (l : list string) :
  join c (x :: y :: l) = (x ++ String c (join c (y :: l)))%string.
Proof. reflexivity. Qed.

Lemma split_join (c : ascii) (l : list string) :
  l <> [] ->
  Forall (fun s => no_char c s = true) l ->
  split c (join c l) = l.
Proof.
  induction l as [|x l IH]; intros Hne Hall; [congruence|].
  inversion Hall as [|? ? Hx Hl]; subst.
  destruct l as [|y l].
  - simpl. apply split_no_sep, Hx.
  - rewrite join_cons2, split_app_sep by exact Hx.
    rewrite IH; [reflexivity | discriminate | exact Hl].
Qed.

Lemma no_char_app (c : ascii) (a b : string) :
  no_char c (a ++ b) = no_char c a && no_char c b.
Proof.
  induction a as [|x a IH]; simpl; [reflexivity|].
  rewrite IH, andb_assoc. reflexivity.
Qed.

Lemma no_char_join (c sep : ascii) (l : list string) :
  Ascii.eqb sep c = false ->
  Forall (fun s => no_char c s = true) l ->
  no_char c (join sep l) = true.
Proof.
  intros Hsep. induction l as [|x l IH]; intros Hall; [reflexivity|].
  inversion Hall as [|? ? Hx Hl]; subst.
  destruct l as [|y l]; [exact Hx|].
  rewrite join_cons2, no_char_app, Hx. simpl.
  rewrite Hsep. simpl. apply IH, Hl.
Qed.

Lemma truthy_app_char (a b : string) (c : ascii) :
  truthy (a ++ String c b) = true.
Proof. destruct a; reflexivity. Qed.

Lemma trimStart_length (s : string) :
  String.length (trimStart s) <= String.length s.
Proof.
  induction s as [|c s IH]; simpl; [lia|].
  destruct (is_white c); simpl; lia.
Qed.

Lemma trimEnd_length (s : string) :
  String.length (trimEnd s) <= String.length s.
Proof.
  induction s as [|c s IH]; simpl; [lia|].
  destruct (trimEnd s); [destruct (is_white c)|]; simpl in *; lia.
Qed.

Lemma trimStart_solid (s : string) :
  starts_solid s = true -> trimStart s = s.
Proof.
  destruct s as [|c s]; simpl; [discriminate|].
  intros H. apply negb_true_iff in H. rewrite H. reflexivity.
Qed.

Lemma trimEnd_solid (s : string) :
  ends_solid s = true -> trimEnd s = s.
Proof.
  induction s as [|c s IH]; [discriminate|].
  destruct s as [|d s].
  - simpl. intros H. apply negb_true_iff in H. rewrite H. reflexivity.
  - intros H. change (ends_solid (String d s) = true) in H.
    specialize (IH H).
    change (match trimEnd (String d s) with
            | EmptyString =>
                if is_white c then EmptyString else String c EmptyString
            | r => String c r
            end = String c (String d s)).
    rewrite IH. reflexivity.
Qed.

Lemma trim_solid (s : string) :
  starts_solid s = true -> ends_solid s = true -> trim s = s.
Proof.
  intros Hs He. unfold trim.
  rewrite (trimStart_solid s Hs). apply trimEnd_solid, He.
Qed.

Lemma trimEnd_fixed (s : string) :
  trimEnd s = s -> s = EmptyString \/ ends_solid s = true.
Proof.
  induction s as [|c s IH]; [left; reflexivity|].
  intros H. right. simpl in H.
  destruct (trimEnd s) as [|d r] eqn:Er.
  - destruct (is_white c) eqn:Ew; [discriminate|].
    injection H as <-. simpl. rewrite Ew. reflexivity.
  - injection H as <-. destruct IH as [IH|IH]; [reflexivity|discriminate|].
    exact IH.
Qed.

Lemma trim_fixed (s : string) :
  trim s = s ->
  s = EmptyString \/ (starts_solid s = true /\ ends_solid s = true).
Proof.
  intros H. destruct s as [|c s]; [left; reflexivity|]. right.
  unfold trim in H. simpl in H.
  destruct (is_white c) eqn:Ew.
  - exfalso.
    assert (L := trimEnd_length (trimStart s)).
    assert (L' := trimStart_length s).
    rewrite H in L. simpl in L. lia.
  - split; [simpl; rewrite Ew; reflexivity|].
    destruct (trimEnd_fixed _ H) as [E|E]; [discriminate|exact E].
Qed.

Lemma starts_solid_app (a b : string) :
  starts_solid a = true -> starts_solid (a ++ b) = true.
Proof. destruct a; simpl; [discriminate|trivial]. Qed.

Lemma ends_solid_cons (c : ascii) (b : string) :
  ends_solid b = true -> ends_solid (String c b) = true.
Proof. destruct b; simpl; [discriminate|trivial]. Qed.

Lemma ends_solid_app (a b : string) :
  ends_solid b = true -> ends_solid (a ++ b) = true.
Proof.
  intros H. induction a as [|c a IH]; [exact H|].
  simpl. apply ends_solid_cons, IH.
Qed.

Lemma starts_solid_join (l : list string) :
  Forall (fun s => trim s = s) l ->
  join comma l <> EmptyString ->
  starts_solid (join comma l) = true.
Proof.
  intros Hall Hne. destruct l as [|x l]; [elim Hne; reflexivity|].
  inversion Hall as [|? ? Hx Hl]; subst.
  destruct (trim_fixed x Hx) as [E|[E _]].
  - subst x. destruct l as [|y l]; [elim Hne; reflexivity|reflexivity].
  - destruct l as [|y l]; [exact E|].
    rewrite join_cons2. apply starts_solid_app, E.
Qed.

Lemma ends_solid_join (l : list string) :
  Forall (fun s => trim s = s) l ->
  join comma l <> EmptyString ->
  ends_solid (join comma l) = true.
Proof.
  induction l as [|x l IH]; intros Hall Hne; [elim Hne; reflexivity|].
  inversion Hall as [|? ? Hx Hl]; subst.
  destruct l as [|y l].
  - destruct (trim_fixed x Hx) as [E|[_ E]]; [elim Hne; exact E|exact E].
  - rewrite join_cons2. apply ends_solid_app.
    destruct (join comma (y :: l)) as [|d r] eqn:Ej; [reflexivity|].
    apply ends_solid_cons, IH; [exact Hl|discriminate].
Qed.

Lemma ends_solid_join_last (c : ascii) (l : list string) :
  l <> [] ->
  ends_solid (last l EmptyString) = true ->
  ends_solid (join c l) = true.
Proof.
  induction l as [|x l IH]; intros Hne H; [congruence|].
  destruct l as [|y l]; [exact H|].
  rewrite join_cons2. apply ends_solid_app, ends_solid_cons, IH.
  - discriminate.
  - exact H.
Qed.

Lemma last_map {A B} (f : A -> B) (l : list A) (d : A) (d' : B) :
  l <> [] -> last (map f l) d' = f (last l d).
Proof.
  induction l as [|x l IH]; intros Hne; [congruence|].
  destruct l as [|y l]; [reflexivity|].
  change (last (map f (y :: l)) d' = f (last (y :: l) d)).
  apply IH. discriminate.
Qed.

Lemma prefix_spec (sub s : string) :
  prefix sub s = true <-> exists post, s = (sub ++ post)%string.
Proof.
  revert s. induction sub as [|a sub IH]; intros s.
  - split; [intros _; exists s; reflexivity|].
    intros _. destruct s; reflexivity.
  - destruct s as [|c s]; simpl.
    + split; [discriminate|intros [post E]; discriminate].
    + destruct (ascii_dec a c) as [<-|Hne].
      * rewrite IH. split; intros [post E]; exists post; congruence.
      * split; [discriminate|]. intros [post E]. congruence.
Qed.

Lemma includes_spec (s sub : string) :
  includes s sub = true <-> substring_of sub s.
Proof.
  unfold substring_of. induction s as [|c s IH].
  - change (includes EmptyString sub) with (prefix sub EmptyString || false).
    rewrite orb_false_r, prefix_spec. split.
    + intros [post E]. exists EmptyString, post. exact E.
    + intros (pre & post & E). destruct pre; [|discriminate].
      exists post. exact E.
  - change (includes (String c s) sub)
      with (prefix sub (String c s) || includes s sub).
    rewrite orb_true_iff, IH, prefix_spec. split.
    + intros [[post E]|(pre & post & E)].
      * exists EmptyString, post. exact E.
      * exists (String c pre), post. simpl. rewrite E. reflexivity.
    + intros (pre & post & E). destruct pre as [|d pre].
      * left. exists post. exact E.
      * right. injection E as -> E. exists pre, post. exact E.
Qed.

Lemma join_two_nonempty (c : ascii) (l : list string) :
  2 <= length l -> join c l <> EmptyString.
Proof.
  destruct l as [|x [|y l]]; simpl; try lia.
  intros _. destruct x; discriminate.
Qed.

(* ================================================================= *)
(** ** Objects: assigning the properties of an object in their own order *)

Lemma keys_app (a b : jsobj) : keys (a ++ b) = keys a ++ keys b.
Proof. apply map_app. Qed.

Lemma distinct_prefix (a b : list string) :
  distinct (a ++ b) = true -> distinct a = true.
Proof.
  induction a as [|k a IH]; simpl; [reflexivity|].
  rewrite existsb_app, negb_orb, !andb_true_iff.
  intros [[H _] D]. split; [exact H|apply IH, D].
Qed.

Lemma js_ordered_prefix (a b : list string) :
  js_ordered (a ++ b) = true -> js_ordered a = true.
Proof.
  induction a as [|k a IH]; simpl; [reflexivity|].
  rewrite forallb_app, !andb_true_iff.
  intros [[H _] D]. split; [exact H|apply IH, D].
Qed.

Lemma wf_obj_prefix (a b : jsobj) :
  wf_obj (a ++ b) = true -> wf_obj a = true.
Proof.
  unfold wf_obj. rewrite keys_app, !andb_true_iff. intros [D O].
  split; [eapply distinct_prefix|eapply js_ordered_prefix]; eassumption.
Qed.

Lemma fresh_last_key (o : jsobj) (k : string) (v : jsval) :
  distinct (keys (o ++ [(k, v)])) = true -> obj_get k o = None.
Proof.
  induction o as [|[k' v'] o IH]; simpl; [reflexivity|].
  rewrite keys_app, existsb_app, negb_orb, !andb_true_iff. simpl.
  rewrite orb_false_r. intros [[_ Hk] D].
  apply negb_true_iff in Hk. rewrite Hk.
  apply IH. rewrite keys_app. exact D.
Qed.

Lemma insert_last_key (o : jsobj) (k : string) (v : jsval) :
  js_ordered (keys (o ++ [(k, v)])) = true ->
  obj_insert k v o = o ++ [(k, v)].
Proof.
  induction o as [|[k' v'] o IH]; simpl; [reflexivity|].
  rewrite keys_app, forallb_app, !andb_true_iff. simpl.
  rewrite andb_true_r. intros [[_ Hk] D].
  rewrite Hk, IH; [reflexivity|]. rewrite keys_app. exact D.
Qed.

Lemma obj_assign_last (o : jsobj) (k : string) (v : jsval) :
  wf_obj (o ++ [(k, v)]) = true ->
  (k =? "__proto__")%string = false ->
  obj_assign k v o = o ++ [(k, v)].
Proof.
  unfold wf_obj, obj_assign, obj_set. intros H Hk.
  apply andb_true_iff in H as [D O].
  rewrite Hk, (fresh_last_key o k v D). apply insert_last_key, O.
Qed.

Lemma plain_key_inv (k : string) :
  plain_key k = true ->
  no_char comma k = true /\ no_char newline k = true
  /\ trim k = k /\ (k =? "__proto__")%string = false.
Proof.
  unfold plain_key. rewrite !andb_true_iff, negb_true_iff, String.eqb_eq.
  tauto.
Qed.

Lemma plain_value_inv (v : jsval) :
  plain_value v = true ->
  exists s, v = VStr s /\ no_char comma s = true
            /\ no_char newline s = true /\ trim s = s.
Proof.
  destruct v as [s|l]; simpl; [|discriminate].
  rewrite !andb_true_iff, String.eqb_eq. intros [[H1 H2] H3].
  exists s. tauto.
Qed.

Lemma nth_error_middle (pre suf : jsobj) (k : string) (v : jsval) :
  nth_error (map to_str (values (pre ++ (k, v) :: suf))) (length pre)
  = Some (to_str v).
Proof.
  unfold values. rewrite !map_app. simpl.
  rewrite nth_error_app2; rewrite !length_map; [|lia].
  rewrite Nat.sub_diag. reflexivity.
Qed.

(** Assigning the fields of a well-formed record in its own key order, on
    top of the fields before them, rebuilds the record. *)
Lemma assign_fields_rebuild (suf pre : jsobj) :
  wf_obj (pre ++ suf) = true ->
  forallb plain_key (keys suf) = true ->
  forallb plain_value (values suf) = true ->
  assign_fields (keys suf) (length pre)
    (map to_str (values (pre ++ suf))) pre = Ok (pre ++ suf).
Proof.
  revert pre. induction suf as [|[k v] suf IH]; intros pre W K V.
  - simpl. rewrite app_nil_r. reflexivity.
  - simpl in K, V. apply andb_true_iff in K as [Kk K].
    apply andb_true_iff in V as [Vv V].
    apply plain_key_inv in Kk as (_ & _ & Tk & Pk).
    apply plain_value_inv in Vv as (s & -> & _ & _ & Ts).
    simpl assign_fields. rewrite nth_error_middle. simpl to_str.
    rewrite Tk, Ts.
    assert (E : pre ++ (k, VStr s) :: suf = (pre ++ [(k, VStr s)]) ++ suf)
      by (rewrite <- app_assoc; reflexivity).
    rewrite obj_assign_last;
      [|apply (wf_obj_prefix _ suf); rewrite <- E; exact W|exact Pk].
    rewrite E.
    replace (S (length pre)) with (length (pre ++ [(k, VStr s)]))
      by (rewrite length_app; simpl; lia).
    apply IH; [rewrite <- E; exact W|exact K|exact V].
Qed.

Lemma mapM_map_ok {A B} (f : A -> result B) (g : B -> A) (l : list B) :
  (forall x, In x l -> f (g x) = Ok x) ->
  mapM f (map g l) = Ok l.
Proof.
  induction l as [|x l IH]; intros H; [reflexivity|].
  simpl. rewrite (H x (or_introl eq_refl)). simpl.
  rewrite IH; [reflexivity|]. intros y Hy. apply H. right. exact Hy.
Qed.

(* ================================================================= *)
(** ** The codec on plain tables *)

Lemma plain_keys_lines (ks : list string) :
  forallb plain_key ks = true ->
  Forall (fun s => no_char comma s = true) ks
  /\ Forall (fun s => trim s = s) ks
  /\ no_char newline (join comma ks) = true.
Proof.
  intros H. rewrite forallb_forall in H.
  repeat split.
  - apply Forall_forall. intros k Hk. apply (plain_key_inv k (H k Hk)).
  - apply Forall_forall. intros k Hk. apply (plain_key_inv k (H k Hk)).
  - apply no_char_join; [reflexivity|].
    apply Forall_forall. intros k Hk. apply (plain_key_inv k (H k Hk)).
Qed.

Lemma plain_values_lines (r : jsobj) :
  forallb plain_value (values r) = true ->
  Forall (fun s => no_char comma s = true) (map to_str (values r))
  /\ Forall (fun s => trim s = s) (map to_str (values r))
  /\ no_char newline (row_line r) = true.
Proof.
  intros H. rewrite forallb_forall in H.
  assert (P : forall s, In s (map to_str (values r)) ->
            no_char comma s = true /\ no_char newline s = true
            /\ trim s = s).
  { intros s Hs. apply in_map_iff in Hs as (v & <- & Hv).
    destruct (plain_value_inv v (H v Hv)) as (s' & -> & ?). assumption. }
  repeat split.
  - apply Forall_forall. intros s Hs. apply (P s Hs).
  - apply Forall_forall. intros s Hs. apply (P s Hs).
  - apply no_char_join; [reflexivity|].
    apply Forall_forall. intros s Hs. apply (P s Hs).
Qed.

Lemma wf_obj_same_keys (r first : jsobj) :
  keys r = keys first -> wf_obj first = true -> wf_obj r = true.
Proof. unfold wf_obj. intros ->. trivial. Qed.

Lemma parse_row_line (first r : jsobj) :
  wf_obj first = true ->
  forallb plain_key (keys first) = true ->
  keys first <> [] ->
  keys r = keys first ->
  forallb plain_value (values r) = true ->
  parse_row (keys first) (row_line r) = Ok r.
Proof.
  intros W K Hne Hk V. unfold parse_row, row_line.
  destruct (plain_values_lines r V) as (Vc & _ & _).
  rewrite split_join; [|unfold values, keys in *|exact Vc].
  - rewrite <- Hk in K |- *.
    apply (assign_fields_rebuild r []); [|exact K|exact V].
    apply (wf_obj_same_keys r first Hk W).
  - intros E. apply map_eq_nil in E. apply map_eq_nil in E.
    subst r. apply Hne. rewrite <- Hk. reflexivity.
Qed.

Lemma last_in {A} (l : list A) (d : A) : l <> [] -> In (last l d) l.
Proof.
  induction l as [|x l IH]; intros Hne; [congruence|].
  destruct l as [|y l]; [left; reflexivity|].
  right. apply IH. discriminate.
Qed.

Lemma keys_length (r : jsobj) : length (keys r) = length r.
Proof. apply length_map. Qed.

Lemma values_length (r : jsobj) : length (map to_str (values r)) = length r.
Proof. unfold values. rewrite !length_map. reflexivity. Qed.

(** On a non-empty plain table the written text is the header line and the
    row lines joined by newlines, and [trim] does not change it. *)
Lemma csvContent_lines (first : jsobj) (t : list jsobj) :
  t <> [] ->
  csvContent first t = join newline (header_line first :: map row_line t).
Proof.
  intros Hne. destruct t as [|r t]; [congruence|]. reflexivity.
Qed.

Lemma parse_csv_plain (first : jsobj) (rest : list jsobj) :
  let t := first :: rest in
  wf_obj first = true ->
  forallb plain_key (keys first) = true ->
  (forall r, In r t ->
     keys r = keys first /\ forallb plain_value (values r) = true) ->
  edges_kept t ->
  parse_csv (csvContent first t) = Ok t.
Proof.
  intros t W K U E.
  assert (Hne : t <> []) by discriminate.
  destruct (plain_keys_lines _ K) as (Kc & Kt & Kn).
  assert (Hlast : In (last t first) t) by (apply last_in, Hne).
  destruct (U _ Hlast) as [Lk Lv].
  destruct (plain_values_lines _ Lv) as (_ & Lt & _).
  assert (Hhead : header_line first <> EmptyString).
  { destruct E as [E|(_ & E & _)]; [|exact E].
    apply join_two_nonempty. rewrite keys_length. exact E. }
  assert (Hrow : row_line (last t first) <> EmptyString).
  { destruct E as [E|(_ & _ & E)]; [|exact E].
    apply join_two_nonempty.
    rewrite values_length, <- keys_length, Lk, keys_length. exact E. }
  assert (Hkeys : keys first <> []).
  { intros Ek. apply Hhead. unfold header_line. rewrite Ek. reflexivity. }
  assert (Htrim : trim (csvContent first t) = csvContent first t).
  { apply trim_solid.
    - apply starts_solid_app, starts_solid_join; assumption.
    - apply ends_solid_app, ends_solid_cons, ends_solid_join_last.
      + discriminate.
      + rewrite (last_map row_line t first) by exact Hne.
        apply ends_solid_join; assumption. }
  unfold parse_csv. rewrite Htrim, csvContent_lines by exact Hne.
  rewrite split_join.
  - unfold header_line at 1.
    rewrite split_join by assumption.
    apply mapM_map_ok. intros r Hr. destruct (U r Hr) as [Rk Rv].
    apply parse_row_line; assumption.
  - discriminate.
  - constructor; [exact Kn|].
    apply Forall_forall. intros s Hs.
    apply in_map_iff in Hs as (r & <- & Hr).
    apply plain_values_lines, (U r Hr).
Qed.

Lemma saveStudents_writes (students : list jsobj) (w : world) :
  saveStudents students w = write_csv (serialize students) w.
Proof. destruct students; reflexivity. Qed.

Lemma write_csv_writable (data : string) (w : world) :
  writable (csv w) ->
  write_csv data w = (set_csv (Present data) w, Resolved tt).
Proof.
  unfold write_csv. destruct (csv w); simpl; intros H;
    [reflexivity|reflexivity|contradiction|contradiction].
Qed.

Lemma truthy_csvContent (first : jsobj) (t : list jsobj) :
  truthy (csvContent first t) = true.
Proof. apply truthy_app_char. Qed.

Lemma getStudents_present (w : world) (data : string) :
  csv w = Present data ->
  getStudents w
  = match parse_csv data with
    | Ok students => Resolved students
    | Throw e => Uncaught e
    end.
Proof.
  intros Hw. unfold getStudents. rewrite Hw. simpl.
  destruct data; reflexivity.
Qed.

Lemma getStudents_serialized_plain (w : world) (t : list jsobj) :
  csv w = Present (serialize t) ->
  wf_obj (hd [] t) = true ->
  forallb plain_key (keys (hd [] t)) = true ->
  (forall r, In r t ->
     keys r = keys (hd [] t) /\ forallb plain_value (values r) = true) ->
  edges_kept t ->
  getStudents w = Resolved t.
Proof.
  intros Hw W K U E. rewrite (getStudents_present w _ Hw).
  destruct t as [|first rest]; [reflexivity|].
  unfold serialize. rewrite parse_csv_plain by assumption. reflexivity.
Qed.

(* ================================================================= *)
(** ** Rows shorter than the header *)

Lemma assign_fields_throws_TypeError (headers : list string) (index : nat)
    (values : list string) (student : jsobj) (e : js_error) :
  assign_fields headers index values student = Throw e -> e = TypeError.
Proof.
  revert index student.
  induction headers as [|header rest IH]; intros index student; simpl.
  - discriminate.
  - destruct (nth_error values index); [apply IH|congruence].
Qed.

Lemma assign_fields_short (headers : list string) (index : nat)
    (values : list string) (student : jsobj) :
  index <= length values ->
  length values < index + length headers ->
  assign_fields headers index values student = Throw TypeError.
Proof.
  revert index student.
  induction headers as [|header rest IH]; intros index student Hle Hlt.
  - simpl in Hlt. lia.
  - simpl. destruct (nth_error values index) as [value|] eqn:E;
      [|reflexivity].
    assert (index < length values)
      by (apply nth_error_Some; congruence).
    apply IH; simpl in Hlt; lia.
Qed.

Lemma parse_row_short (headers : list string) (row : string) :
  length (split comma row) < length headers ->
  parse_row headers row = Throw TypeError.
Proof.
  intros H. unfold parse_row. apply assign_fields_short; simpl; lia.
Qed.

Lemma mapM_throws {A B} (f : A -> result B) (l : list A) (x : A)
    (err : js_error) :
  (forall y e, f y = Throw e -> e = err) ->
  In x l -> f x = Throw err -> mapM f l = Throw err.
Proof.
  intros Hf. induction l as [|a l IH]; intros Hin Hx; [contradiction|].
  simpl. destruct (f a) as [b|e] eqn:Ea.
  - destruct Hin as [->|Hin]; [congruence|].
    simpl. rewrite (IH Hin Hx). reflexivity.
  - simpl. rewrite (Hf a e Ea). reflexivity.
Qed.

Lemma filterM_throws {A} (p : A -> result bool) (l : list A) (x : A)
    (err : js_error) :
  (forall y e, p y = Throw e -> e = err) ->
  In x l -> p x = Throw err -> filterM p l = Throw err.
Proof.
  intros Hp. induction l as [|a l IH]; intros Hin Hx; [contradiction|].
  simpl. destruct (p a) as [b|e] eqn:Ea.
  - destruct Hin as [->|Hin]; [congruence|].
    simpl. rewrite (IH Hin Hx). reflexivity.
  - simpl. rewrite (Hp a e Ea). reflexivity.
Qed.

(* ================================================================= *)
(** ** Search *)

Lemma name_matches_throws_TypeError (name : jsval) (s : jsobj)
    (e : js_error) :
  name_matches name s = Throw e -> e = TypeError.
Proof.
  unfold name_matches.
  destruct (obj_get "name" s) as [[n|l]|]; [|congruence|congruence].
  destruct name; [discriminate|congruence].
Qed.

Lemma name_matches_nameless (name : jsval) (s : jsobj) :
  obj_get "name" s = None -> name_matches name s = Throw TypeError.
Proof. unfold name_matches. intros ->. reflexivity. Qed.

Lemma filterM_named (q : string) (t : list jsobj) :
  (forall s, In s t -> has_name s) ->
  filterM (name_matches (VStr q)) t = Ok (filter (name_hit q) t).
Proof.
  induction t as [|s t IH]; intros H; [reflexivity|].
  destruct (H s (or_introl eq_refl)) as [n Hn].
  simpl. unfold name_matches at 1, name_hit at 1. rewrite Hn. simpl.
  rewrite IH; [reflexivity|]. intros s' Hs'. apply H. right. exact Hs'.
Qed.

Lemma name_hit_spec (q : string) (s : jsobj) :
  name_hit q s = true <-> name_contains q s.
Proof.
  unfold name_hit, name_contains. split.
  - destruct (obj_get "name" s) as [[n|l]|]; try discriminate.
    intros H. exists n. split; [reflexivity|apply includes_spec, H].
  - intros (n & -> & H). apply includes_spec, H.
Qed.

Lemma filter_nothing {A} (f : A -> bool) (l : list A) :
  (forall x, In x l -> f x = false) -> filter f l = [].
Proof.
  induction l as [|x l IH]; intros H; [reflexivity|].
  simpl. rewrite (H x (or_introl eq_refl)).
  apply IH. intros y Hy. apply H. right. exact Hy.
Qed.

Lemma missing_nonempty (q : string) :
  q <> EmptyString -> missing (Some (VStr q)) = false.
Proof. destruct q; [congruence|reflexivity]. Qed.

(* ================================================================= *)
(** ** Routing *)

Section Routes.

Variable querystring_parse : string -> jsobj.
Variables (w : world) (req : request).

Lemma route_students :
  routed "GET" "/students" req ->
  server querystring_parse w req = list_handler w.
Proof. intros [Hm Hp]. unfold server. rewrite Hm, Hp. reflexivity. Qed.

Lemma route_add :
  routed "POST" "/add" req ->
  server querystring_parse w req
  = add_handler w (querystring_parse (body req)).
Proof. intros [Hm Hp]. unfold server. rewrite Hm, Hp. reflexivity. Qed.

Lemma route_search :
  routed "GET" "/search" req ->
  server querystring_parse w req = search_handler w (query_name req).
Proof. intros [Hm Hp]. unfold server. rewrite Hm, Hp. reflexivity. Qed.



End Routes.

(* ================================================================= *)
(** ** C1: round trip of the codec *)

(** C1, as the specification states it, fails: a table with one record,
    one column set and no comma or newline in any value does not come back
    from [parse_csv (serialize t)], because parsing trims every value. *)
Lemma C1_roundtrip_counterexample :
  same_column_set [student_padded]
  /\ no_embedded_separator [student_padded]
  /\ parse_csv (serialize [student_padded]) = Ok [student_A]
  /\ parse_csv (serialize [student_padded]) <> Ok [student_padded].
Proof.
  split; [|split; [|split]].
  - intros r r' [<-|[]] [<-|[]] k. tauto.
  - intros r v [<-|[]] Hv. simpl in Hv.
    destruct Hv as [<-|[<-|[<-|[]]]]; split; reflexivity.
  - reflexivity.
  - discriminate.
Qed.

(** C1 (amended): for every table whose records are objects with the
    column names of the first record in the same order, whose column names
    and values are plain (strings without comma or newline and without
    white space around them, no column called [__proto__]) and whose text
    [trim] leaves alone (two columns or more, or a single column with a
    non-empty name and a non-empty last value), parsing the serialization
    gives the table back; so does loading after saving. *)
Theorem C1_roundtrip_plain (t : list jsobj) :
  wf_obj (hd [] t) = true ->
  forallb plain_key (keys (hd [] t)) = true ->
  (forall r, In r t ->
     keys r = keys (hd [] t) /\ forallb plain_value (values r) = true) ->
  edges_kept t ->
  parse_csv (serialize t) = Ok t
  /\ forall w, writable (csv w) ->
       getStudents (fst (saveStudents t w)) = Resolved t.
Proof.
  intros W K U E.
  assert (P : parse_csv (serialize t) = Ok t).
  { destruct t as [|first rest]; [reflexivity|].
    apply parse_csv_plain; assumption. }
  split; [exact P|]. intros w Hw.
  rewrite saveStudents_writes, write_csv_writable by exact Hw.
  unfold getStudents. simpl.
  replace (truthy (serialize t)) with true.
  - simpl. rewrite P. reflexivity.
  - destruct t; [reflexivity|]. symmetry. apply truthy_csvContent.
Qed.

Lemma C1_roundtrip_plain_witness :
  parse_csv (serialize [student_A; student_B]) = Ok [student_A; student_B]
  /\ getStudents (fst (saveStudents [student_A; student_B] (disk Absent)))
     = Resolved [student_A; student_B].
Proof.
  assert (U : forall r, In r [student_A; student_B] ->
            keys r = keys (hd [] [student_A; student_B])
            /\ forallb plain_value (values r) = true).
  { intros r [<-|[<-|[]]]; split; reflexivity. }
  assert (E : edges_kept [student_A; student_B]).
  { left. simpl. lia. }
  destruct (C1_roundtrip_plain [student_A; student_B]
              eq_refl eq_refl U E) as [P S].
  split; [exact P|]. apply S. exact I.
Defined.

(* ================================================================= *)
(** ** C2: loading a missing or an empty file *)

(** C2: [getStudents] resolves to the empty table when the file is missing
    (any read that fails with ENOENT) and when the file is empty; it rejects
    exactly when the read fails with another code, and then with that
    system error. *)
Theorem C2_load_missing_or_empty (w : world) :
  (readFile (csv w) = Failed ENOENT -> getStudents w = Resolved [])
  /\ (csv w = Present EmptyString -> getStudents w = Resolved [])
  /\ (forall e, getStudents w = Rejected e <->
        exists code, readFile (csv w) = Failed code
                     /\ code <> ENOENT /\ e = SysError code).
Proof.
  unfold getStudents. split; [|split].
  - intros ->. reflexivity.
  - intros ->. reflexivity.
  - intros e. split.
    + destruct (readFile (csv w)) as [data|code].
      * destruct (negb (truthy data)); [discriminate|].
        destruct (parse_csv data); discriminate.
      * destruct code; try discriminate;
          intros [= <-]; eexists; (split; [reflexivity|]);
          (split; [discriminate|reflexivity]).
    + intros (code & -> & Hne & ->).
      destruct code; [congruence|reflexivity|reflexivity|reflexivity].
Qed.

Lemma C2_load_missing_or_empty_witness :
  getStudents (disk Absent) = Resolved []
  /\ getStudents (disk (Present EmptyString)) = Resolved []
  /\ getStudents (disk (Faulty EACCES)) = Rejected (SysError EACCES).
Proof.
  split; [|split].
  - apply (proj1 (C2_load_missing_or_empty (disk Absent))). reflexivity.
  - apply (proj1 (proj2 (C2_load_missing_or_empty
                           (disk (Present EmptyString))))).
    reflexivity.
  - apply (proj2 (proj2 (C2_load_missing_or_empty (disk (Faulty EACCES))))).
    exists EACCES. split; [reflexivity|]. split; [discriminate|reflexivity].
Defined.

(* ================================================================= *)
(** ** C3: Add appends one record *)


Lemma add_store_writable (w : world) (t : list jsobj) (r : jsobj) :
  writable (csv w) ->
  add_store w t r
  = (emit "added" (set_csv (Present (serialize (t ++ [r]))) w),
     reply_json 201 (JAdded "Student added successfully" r)).
Proof.
  intros Hw. unfold add_store.
  rewrite saveStudents_writes, write_csv_writable by exact Hw.
  reflexivity.
Qed.

(** C3, as stated for every record, fails: on a file holding the record B,
    an Add of a record whose roll number has a leading blank is answered
    201, and the next load does not return the stored table followed by
    that record, because the file gives the value back trimmed. *)
Lemma C3_add_counterexample :
  getStudents (disk (Present file_B)) = Resolved [student_B]
  /\ snd (server form_padded (disk (Present file_B))
            (mkRequest "POST" "/add" None "name=A&roll=+1&marks=90"))
     = Responded
         (mkResponse 201 json_headers
            (Json (JAdded "Student added successfully" student_padded)))
  /\ getStudents
       (fst (server form_padded (disk (Present file_B))
               (mkRequest "POST" "/add" None "name=A&roll=+1&marks=90")))
     = Resolved [student_B; student_A]
  /\ [student_B; student_A] <> [student_B] ++ [student_padded].
Proof.
  split; [reflexivity|]. split; [reflexivity|]. split; [reflexivity|].
  discriminate.
Qed.

(** C3 (amended): when the stored table loads as [t], the file can be
    written, and [t] followed by the submitted record [r] is a plain table
    in the sense of C1, the Add answers 201 with [r], emits one [added]
    event, and persists exactly [t] with [r] appended: the next load
    returns [t ++ [r]], every earlier record at its place and [r] last. *)
Theorem C3_add_appends_plain (querystring_parse : string -> jsobj)
    (w : world) (req : request) (t : list jsobj) :
  routed "POST" "/add" req ->
  getStudents w = Resolved t ->
  writable (csv w) ->
  wf_obj (hd [] (t ++ [querystring_parse (body req)])) = true ->
  forallb plain_key (keys (hd [] (t ++ [querystring_parse (body req)])))
  = true ->
  (forall s, In s (t ++ [querystring_parse (body req)]) ->
     keys s = keys (hd [] (t ++ [querystring_parse (body req)]))
     /\ forallb plain_value (values s) = true) ->
  edges_kept (t ++ [querystring_parse (body req)]) ->
  snd (server querystring_parse w req)
  = Responded
      (mkResponse 201 json_headers
         (Json (JAdded "Student added successfully"
                  (querystring_parse (body req)))))
  /\ getStudents (fst (server querystring_parse w req))
     = Resolved (t ++ [querystring_parse (body req)])
  /\ events (fst (server querystring_parse w req))
     = events w ++ ["added"].
Proof.
  intros R L Hw W K U E.
  set (r := querystring_parse (body req)) in *.
  rewrite route_add by exact R. fold r.
  unfold add_handler. rewrite L, add_store_writable by exact Hw.
  split; [reflexivity|]. split; [|reflexivity].
  apply getStudents_serialized_plain; try assumption. reflexivity.
Qed.

Lemma C3_add_appends_plain_witness :
  snd (server form_B (disk (Present file_A))
         (mkRequest "POST" "/add" None "name=B&roll=2&marks=80"))
  = Responded
      (mkResponse 201 json_headers
         (Json (JAdded "Student added successfully" student_B)))
  /\ getStudents
       (fst (server form_B (disk (Present file_A))
               (mkRequest "POST" "/add" None "name=B&roll=2&marks=80")))
     = Resolved ([student_A] ++ [student_B])
  /\ events
       (fst (server form_B (disk (Present file_A))
               (mkRequest "POST" "/add" None "name=B&roll=2&marks=80")))
     = events (disk (Present file_A)) ++ ["added"].
Proof.
  apply (C3_add_appends_plain form_B (disk (Present file_A))
           (mkRequest "POST" "/add" None "name=B&roll=2&marks=80")
           [student_A] (conj eq_refl eq_refl) eq_refl I eq_refl eq_refl).
  - intros s [<-|[<-|[]]]; split; reflexivity.
  - left. simpl. lia.
Defined.

(* ================================================================= *)
(** ** C4: Search *)

(** C4, as stated for every loaded table, fails: on a file whose header
    has no name column no record has a name that contains the query, so
    the claim gives the empty list, and the Search is answered 500. *)
Lemma C4_search_counterexample :
  getStudents (disk (Present nameless_file))
  = Resolved [[("roll", VStr "1"); ("marks", VStr "90")]]
  /\ (forall s, In s [[("roll", VStr "1"); ("marks", VStr "90")]] ->
       ~ name_contains "1" s)
  /\ snd (server form_B (disk (Present nameless_file))
            (mkRequest "GET" "/search" (Some (VStr "1")) EmptyString))
     = Responded
         (mkResponse 500 json_headers
            (Json (JFailure "Error searching students" TypeError))).
Proof.
  split; [reflexivity|]. split; [|reflexivity].
  intros s [<-|[]] (n & Hn & _). discriminate.
Qed.

(** C4 (amended): on a loaded table whose records all have a string
    [name], Search with a single non-empty string [q] answers 200 with
    exactly the records whose name contains [q], letter case ignored, in
    table order (the empty list when none does), and changes nothing;
    Search without [name] answers 400 whatever the store holds. *)
Theorem C4_search_named (querystring_parse : string -> jsobj)
    (w : world) (req : request) :
  routed "GET" "/search" req ->
  (forall q t,
     query_name req = Some (VStr q) -> q <> EmptyString ->
     getStudents w = Resolved t ->
     (forall s, In s t -> has_name s) ->
     exists results,
       server querystring_parse w req
       = (w, Responded (mkResponse 200 json_headers (Json (JList results))))
       /\ results = filter (name_hit q) t
       /\ (forall s, In s results <-> In s t /\ name_contains q s)
       /\ ((forall s, In s t -> ~ name_contains q s) -> results = []))
  /\ (query_name req = None ->
      server querystring_parse w req
      = (w, Responded
              (mkResponse 400 json_headers
                 (Json (JMessage "Name query parameter is required"))))).
Proof.
  intros R. rewrite route_search by exact R. split.
  - intros q t Hq Hne L N. rewrite Hq. unfold search_handler.
    rewrite (missing_nonempty q Hne), L, (filterM_named q t N).
    exists (filter (name_hit q) t).
    split; [reflexivity|]. split; [reflexivity|]. split.
    + intros s. rewrite filter_In, name_hit_spec. tauto.
    + intros None_hit. apply filter_nothing. intros s Hs.
      destruct (name_hit q s) eqn:E; [|reflexivity].
      elim (None_hit s Hs). apply name_hit_spec, E.
  - intros ->. reflexivity.
Qed.

Lemma C4_search_named_witness :
  (exists results,
     server form_B (disk (Present names_file))
       (mkRequest "GET" "/search" (Some (VStr "ali")) EmptyString)
     = (disk (Present names_file),
        Responded (mkResponse 200 json_headers (Json (JList results))))
     /\ results = [[("name", VStr "Alice")]])
  /\ server form_B (disk (Present short_row_file))
       (mkRequest "GET" "/search" None EmptyString)
     = (disk (Present short_row_file),
        Responded
          (mkResponse 400 json_headers
             (Json (JMessage "Name query parameter is required")))).
Proof.
  assert (N : forall s,
            In s [[("name", VStr "Alice")]; [("name", VStr "bob")]] ->
            has_name s).
  { intros s [<-|[<-|[]]]; eexists; reflexivity. }
  split.
  - destruct (C4_search_named form_B (disk (Present names_file))
                (mkRequest "GET" "/search" (Some (VStr "ali")) EmptyString)
                (conj eq_refl eq_refl)) as [Found _].
    destruct (Found "ali"
                [[("name", VStr "Alice")]; [("name", VStr "bob")]]
                eq_refl ltac:(discriminate) eq_refl N)
      as (results & S & F & _).
    exists results. split; [exact S|]. rewrite F. vm_compute. reflexivity.
  - apply (proj2 (C4_search_named form_B (disk (Present short_row_file))
                    (mkRequest "GET" "/search" None EmptyString)
                    (conj eq_refl eq_refl))).
    reflexivity.
Defined.

(* ================================================================= *)
(** ** C5: a row with fewer fields than the header *)

(** C5: on a file whose data row has two fields under a header of three,
    reading the missing field throws inside the [readFile] callback.  The
    parse yields no table, the promise that [getStudents] documents as
    resolving to the students neither resolves nor rejects, and the
    exception is uncaught: the code does not give the row an undefined
    field, and it does not fail the load the way its own [reject(err)]
    path does. *)
Theorem C5_short_row_crashes :
  length (split comma "A,1") < length (split comma "name,roll,marks")
  /\ parse_csv short_row_file = Throw TypeError
  /\ (forall t, parse_csv short_row_file <> Ok t)
  /\ getStudents (disk (Present short_row_file)) = Uncaught TypeError
  /\ snd (server form_B (disk (Present short_row_file))
            (mkRequest "GET" "/students" None EmptyString))
     = Crashed TypeError.
Proof.
  split; [simpl; lia|]. split; [reflexivity|].
  split; [discriminate|]. split; reflexivity.
Qed.

(** Any file with a data row shorter than its header behaves the same
    way: the row mapping throws a TypeError at the first missing field, the
    parse produces no table, and [getStudents] resolves to none. *)
Lemma short_row_throws (data first row : string) (rows : list string) :
  split newline (trim data) = first :: rows ->
  In row rows ->
  length (split comma row) < length (split comma first) ->
  parse_row (split comma first) row = Throw TypeError
  /\ parse_csv data = Throw TypeError
  /\ forall w t, csv w = Present data -> getStudents w <> Resolved t.
Proof.
  intros Hs Hin Hlen.
  assert (R : parse_row (split comma first) row = Throw TypeError)
    by (apply parse_row_short, Hlen).
  assert (P : parse_csv data = Throw TypeError).
  { unfold parse_csv. rewrite Hs.
    apply (mapM_throws _ rows row); [|exact Hin|exact R].
    intros y e. apply assign_fields_throws_TypeError. }
  split; [exact R|]. split; [exact P|].
  intros w t Hw. unfold getStudents. rewrite Hw. simpl.
  destruct data as [|c data].
  - simpl in Hs. injection Hs as _ <-. contradiction.
  - simpl truthy. simpl negb. cbv iota. rewrite P. discriminate.
Qed.

Lemma short_row_throws_witness :
  parse_csv short_row_file = Throw TypeError
  /\ forall t, getStudents (disk (Present short_row_file)) <> Resolved t.
Proof.
  destruct (short_row_throws short_row_file "name,roll,marks" "A,1"
              ["A,1"] eq_refl (or_introl eq_refl)
              ltac:(simpl; lia)) as (_ & P & G).
  split; [exact P|]. intros t. apply G. reflexivity.
Defined.

(* ================================================================= *)
(** ** C6: errors that no handler catches *)

(** C6 fails on Export: with the backing file missing, the read stream has
    no error listener and the request ends with the ENOENT error uncaught,
    not with a JSON envelope. *)
Theorem C6_export_missing_file_crashes (querystring_parse : string -> jsobj)
    (page : file_state) (log : list string) :
  server querystring_parse (mkWorld Absent page log)
    (mkRequest "GET" "/export" None EmptyString)
  = (mkWorld Absent page log, Crashed (SysError ENOENT)).
Proof. reflexivity. Qed.

(* ================================================================= *)
(** ** C7: serializing the empty table *)

(** C7: [saveStudents] of the empty table writes the text
    [name,roll,marks], which is a single line, and on a store that accepts
    the write the file then holds exactly that text. *)
Theorem C7_empty_table_header (w : world) :
  saveStudents [] w = write_csv "name,roll,marks" w
  /\ split newline (serialize []) = ["name,roll,marks"]
  /\ parse_csv (serialize []) = Ok []
  /\ (writable (csv w) ->
      csv (fst (saveStudents [] w)) = Present "name,roll,marks").
Proof.
  split; [reflexivity|]. split; [reflexivity|]. split; [reflexivity|].
  intros Hw. simpl. rewrite write_csv_writable by exact Hw. reflexivity.
Qed.

Lemma C7_empty_table_header_witness :
  csv (fst (saveStudents [] (disk (Present (serialize [student_A])))))
  = Present "name,roll,marks".
Proof.
  apply (proj2 (proj2 (proj2 (C7_empty_table_header
                                (disk (Present (serialize [student_A]))))))).
  exact I.
Defined.

(* ================================================================= *)
(** ** C8: Export, then Import of the exported bytes *)

(** C8: the round trip does not hold for every file state.  With the
    backing file missing, List answers 200 with the empty table, and the
    Export that should start the round trip ends with the ENOENT error
    uncaught.  With the file holding the record A, Export answers with the
    bytes of the file and the Import of these bytes is answered 200 while
    the file is empty: a List at that moment answers with the empty table,
    and only after the write stream has flushed does List answer with the
    record again. *)
Theorem C8_export_import_breaks :
  snd (server form_B (disk Absent)
         (mkRequest "GET" "/students" None EmptyString))
  = Responded (mkResponse 200 json_headers (Json (JList [])))
  /\ snd (server form_B (disk Absent)
            (mkRequest "GET" "/export" None EmptyString))
     = Crashed (SysError ENOENT)
  /\ payload_of
       (snd (server form_B (disk (Present file_A))
               (mkRequest "GET" "/export" None EmptyString)))
     = Some (Raw file_A)
  /\ payload_of
       (snd (server form_B (disk (Present file_A))
               (mkRequest "GET" "/students" None EmptyString)))
     = Some (Json (JList [student_A]))
  /\ server form_B (disk (Present file_A))
       (mkRequest "POST" "/upload" None file_A)
     = (mkWorld (Present EmptyString) Absent ["imported"],
        Responded
          (mkResponse 200 json_headers
             (Json (JMessage "File uploaded successfully"))))
  /\ payload_of
       (snd (server form_B
               (mkWorld (Present EmptyString) Absent ["imported"])
               (mkRequest "GET" "/students" None EmptyString)))
     = Some (Json (JList []))
  /\ upload_settle (mkWorld (Present EmptyString) Absent ["imported"])
       file_A
     = (mkWorld (Present file_A) Absent ["imported"], None)
  /\ payload_of
       (snd (server form_B (mkWorld (Present file_A) Absent ["imported"])
               (mkRequest "GET" "/students" None EmptyString)))
     = Some (Json (JList [student_A])).
Proof. repeat split; reflexivity. Qed.

(* ================================================================= *)
(** ** C9: two Add requests that load the same state *)

(** C9, as stated for all records, fails: with the record B stored, two Add
    requests load it, the first stores C and the second stores a record
    whose roll number has a leading blank.  Both are answered 201, C is
    lost, and the file does not hold the stored record followed by the
    second one: it gives that record back trimmed. *)
Lemma C9_lost_update_counterexample :
  snd (run_adds [false; true; false; true] (disk (Present file_B))
         (AddReceived student_C) (AddReceived student_padded))
  = AddFinished
      (Responded
         (mkResponse 201 json_headers
            (Json (JAdded "Student added successfully" student_padded))))
  /\ getStudents
       (fst (fst (run_adds [false; true; false; true]
                    (disk (Present file_B))
                    (AddReceived student_C) (AddReceived student_padded))))
     = Resolved [student_B; student_A]
  /\ [student_B; student_A] <> [student_B] ++ [student_padded].
Proof.
  split; [reflexivity|]. split; [reflexivity|discriminate].
Qed.

(** C9 (amended): when two Add requests both load the table [t] before
    either of them stores, the first one stores before the second, and [t]
    followed by the second record [r2] is a plain table in the sense of C1,
    both requests are answered 201 and the file ends holding exactly the
    records of [t] followed by [r2]: the next load returns [t ++ [r2]], the
    same as if the first request had never been made, and the first
    record is in it only if it was stored before or equals [r2]. *)
Theorem C9_lost_update_plain (w : world) (t : list jsobj) (r1 r2 : jsobj)
    (second_loads_first : bool) :
  getStudents w = Resolved t ->
  writable (csv w) ->
  wf_obj (hd [] (t ++ [r2])) = true ->
  forallb plain_key (keys (hd [] (t ++ [r2]))) = true ->
  (forall s, In s (t ++ [r2]) ->
     keys s = keys (hd [] (t ++ [r2]))
     /\ forallb plain_value (values s) = true) ->
  edges_kept (t ++ [r2]) ->
  exists w',
    run_adds [second_loads_first; negb second_loads_first; false; true]
      w (AddReceived r1) (AddReceived r2)
    = (w',
       AddFinished
         (Responded
            (mkResponse 201 json_headers
               (Json (JAdded "Student added successfully" r1)))),
       AddFinished
         (Responded
            (mkResponse 201 json_headers
               (Json (JAdded "Student added successfully" r2)))))
    /\ getStudents w' = Resolved (t ++ [r2])
    /\ csv w' = csv (fst (add_handler w r2))
    /\ events w' = events w ++ ["added"; "added"]
    /\ (forall loaded, getStudents w' = Resolved loaded ->
        In r1 loaded -> In r1 t \/ r1 = r2).
Proof.
  intros L Hw W K U E.
  pose (w1 := emit "added" (set_csv (Present (serialize (t ++ [r1]))) w)).
  exists (emit "added" (set_csv (Present (serialize (t ++ [r2]))) w1)).
  assert (S1 : add_store w t r1
               = (w1, reply_json 201
                        (JAdded "Student added successfully" r1)))
    by (apply add_store_writable, Hw).
  assert (S2 : add_store w1 t r2
               = (emit "added"
                    (set_csv (Present (serialize (t ++ [r2]))) w1),
                  reply_json 201
                    (JAdded "Student added successfully" r2)))
    by (apply add_store_writable; exact I).
  assert (G : getStudents
                (emit "added"
                   (set_csv (Present (serialize (t ++ [r2]))) w1))
              = Resolved (t ++ [r2])).
  { apply getStudents_serialized_plain; try assumption. reflexivity. }
  split; [|split; [exact G|split; [|split]]].
  - destruct second_loads_first; cbn [run_adds negb add_step];
      repeat (first [rewrite L | rewrite S1 | rewrite S2];
              cbn [run_adds add_step]);
      reflexivity.
  - unfold add_handler. rewrite L, add_store_writable by exact Hw.
    reflexivity.
  - simpl. rewrite <- app_assoc. reflexivity.
  - intros loaded Hl Hin. rewrite G in Hl. injection Hl as <-.
    apply in_app_or in Hin as [Hin|[<-|[]]]; [left; exact Hin|].
    right. reflexivity.
Qed.

Lemma C9_lost_update_plain_witness :
  exists w',
    run_adds [false; true; false; true] (disk (Present file_A))
      (AddReceived student_C) (AddReceived student_B)
    = (w',
       AddFinished
         (Responded
            (mkResponse 201 json_headers
               (Json (JAdded "Student added successfully" student_C)))),
       AddFinished
         (Responded
            (mkResponse 201 json_headers
               (Json (JAdded "Student added successfully" student_B)))))
    /\ getStudents w' = Resolved ([student_A] ++ [student_B])
    /\ csv w' = csv (fst (add_handler (disk (Present file_A)) student_B))
    /\ events w' = events (disk (Present file_A)) ++ ["added"; "added"]
    /\ (forall loaded, getStudents w' = Resolved loaded ->
        In student_C loaded ->
        In student_C [student_A] \/ student_C = student_B).
Proof.
  apply (C9_lost_update_plain (disk (Present file_A)) [student_A]
           student_C student_B false eq_refl I eq_refl eq_refl).
  - intros s [<-|[<-|[]]]; split; reflexivity.
  - left. simpl. lia.
Defined.

(* ================================================================= *)
(** ** C10: Search over a record without a name *)

(** C10: when the loaded table has a record with no [name] field, Search
    with a name parameter that is present and not empty changes nothing
    and is answered with status 500 and the JSON error envelope of the
    TypeError, and with no list of matches. *)
Theorem C10_search_nameless_record (querystring_parse : string -> jsobj)
    (w : world) (req : request) (name : jsval) (t : list jsobj)
    (s : jsobj) :
  routed "GET" "/search" req ->
  query_name req = Some name ->
  missing (Some name) = false ->
  getStudents w = Resolved t ->
  In s t ->
  obj_get "name" s = None ->
  server querystring_parse w req
  = (w, Responded
          (mkResponse 500 json_headers
             (Json (JFailure "Error searching students" TypeError)))).
Proof.
  intros R Hq Hm L Hin Hs. rewrite route_search by exact R.
  rewrite Hq. unfold search_handler. rewrite Hm, L.
  rewrite (filterM_throws _ t s TypeError).
  - reflexivity.
  - intros y e. apply name_matches_throws_TypeError.
  - exact Hin.
  - apply name_matches_nameless, Hs.
Qed.

Lemma C10_search_nameless_record_witness :
  server form_B (disk (Present nameless_file))
    (mkRequest "GET" "/search" (Some (VStr "a")) EmptyString)
  = (disk (Present nameless_file),
     Responded
       (mkResponse 500 json_headers
          (Json (JFailure "Error searching students" TypeError)))).
Proof.
  apply (C10_search_nameless_record form_B (disk (Present nameless_file))
           (mkRequest "GET" "/search" (Some (VStr "a")) EmptyString)
           (VStr "a") [[("roll", VStr "1"); ("marks", VStr "90")]]
           [("roll", VStr "1"); ("marks", VStr "90")]
           (conj eq_refl eq_refl) eq_refl eq_refl eq_refl
           (or_introl eq_refl) eq_refl).
Defined.

(* ================================================================= *)
(** ** getStudents: which files load *)

Lemma assign_fields_long (headers : list string) (index : nat)
    (values : list string) (student : jsobj) :
  index + length headers <= length values ->
  exists student',
    assign_fields headers index values student = Ok student'.
Proof.
  revert index student.
  induction headers as [|header rest IH]; intros index student H.
  - exists student. reflexivity.
  - simpl in H |- *.
    destruct (nth_error values index) as [value|] eqn:E.
    + apply IH. lia.
    + apply nth_error_None in E. lia.
Qed.

Lemma parse_row_enough (headers : list string) (row : string) :
  enough_fields headers row = true ->
  exists student, parse_row headers row = Ok student.
Proof.
  unfold enough_fields, parse_row. intros H. apply Nat.leb_le in H.
  apply assign_fields_long. simpl. exact H.
Qed.

Lemma parse_row_not_enough (headers : list string) (row : string) :
  enough_fields headers row = false ->
  parse_row headers row = Throw TypeError.
Proof.
  unfold enough_fields. intros H. apply Nat.leb_gt in H.
  apply parse_row_short, H.
Qed.

Lemma mapM_length {A B} (f : A -> result B) (l : list A) (l' : list B) :
  mapM f l = Ok l' -> length l' = length l.
Proof.
  revert l'. induction l as [|a l IH]; intros l'; simpl.
  - intros [= <-]. reflexivity.
  - destruct (f a) as [b|e]; simpl; [|discriminate].
    destruct (mapM f l) as [bs|e]; simpl; [|discriminate].
    intros [= <-]. simpl. f_equal. apply IH. reflexivity.
Qed.

Lemma mapM_all_ok {A B} (f : A -> result B) (l : list A) :
  (forall x, In x l -> exists y, f x = Ok y) ->
  exists l', mapM f l = Ok l'.
Proof.
  induction l as [|a l IH]; intros H.
  - exists []. reflexivity.
  - destruct (H a (or_introl eq_refl)) as [b Hb].
    destruct IH as [bs Hbs]; [intros x Hx; apply H; right; exact Hx|].
    exists (b :: bs). simpl. rewrite Hb. simpl. rewrite Hbs. reflexivity.
Qed.

Lemma mapM_in {A B} (f : A -> result B) (l : list A) (l' : list B) (y : B) :
  mapM f l = Ok l' -> In y l' -> exists x, In x l /\ f x = Ok y.
Proof.
  revert l'. induction l as [|a l IH]; intros l'; simpl.
  - intros [= <-] [].
  - destruct (f a) as [b|e] eqn:Ea; simpl; [|discriminate].
    destruct (mapM f l) as [bs|e]; simpl; [|discriminate].
    intros [= <-] [<-|Hy].
    + exists a. split; [left; reflexivity|exact Ea].
    + destruct (IH bs eq_refl Hy) as (x & Hx & Fx).
      exists x. split; [right; exact Hx|exact Fx].
Qed.

Lemma parse_csv_unfold (data : string) :
  parse_csv data = mapM (parse_row (file_headers data)) (file_rows data).
Proof.
  unfold parse_csv, file_headers, file_rows, file_lines.
  destruct (split newline (trim data)) as [|first rows] eqn:E;
    [|reflexivity].
  elim (split_not_nil _ _ E).
Qed.

Lemma parse_csv_rows_ok (data : string) :
  forallb (enough_fields (file_headers data)) (file_rows data) = true ->
  exists t, parse_csv data = Ok t /\ length t = length (file_rows data).
Proof.
  intros H. rewrite forallb_forall in H. rewrite parse_csv_unfold.
  destruct (mapM_all_ok (parse_row (file_headers data)) (file_rows data))
    as [t Ht].
  - intros row Hrow. apply parse_row_enough, H, Hrow.
  - exists t. split; [exact Ht|apply (mapM_length _ _ _ Ht)].
Qed.

Lemma parse_csv_rows_short (data : string) :
  forallb (enough_fields (file_headers data)) (file_rows data) = false ->
  parse_csv data = Throw TypeError.
Proof.
  intros H. rewrite parse_csv_unfold.
  assert (E : existsb (fun row => negb (enough_fields (file_headers data) row))
                (file_rows data) = true).
  { clear -H. induction (file_rows data) as [|row rows IH];
      [discriminate|].
    simpl in *. destruct (enough_fields (file_headers data) row);
      [apply IH, H|reflexivity]. }
  apply existsb_exists in E as (row & Hin & Hrow).
  apply negb_true_iff in Hrow.
  apply (mapM_throws _ _ row); [|exact Hin|].
  - intros y e. apply assign_fields_throws_TypeError.
  - apply parse_row_not_enough, Hrow.
Qed.

(** X1: The load of an existing file is decided by the field counts alone:
    when every data row has at least as many fields as the header has
    names, [getStudents] resolves with one record per data row; when some
    row has fewer, the callback throws a TypeError that nothing catches. *)
Theorem getStudents_outcome (w : world) (data : string) :
  csv w = Present data ->
  (forallb (enough_fields (file_headers data)) (file_rows data) = true ->
   exists t, getStudents w = Resolved t
             /\ length t = length (file_rows data))
  /\ (forallb (enough_fields (file_headers data)) (file_rows data) = false ->
      getStudents w = Uncaught TypeError).
Proof.
  intros Hw. unfold getStudents. rewrite Hw. simpl. split.
  - intros H. destruct data as [|c data]; [exists []; split; reflexivity|].
    destruct (parse_csv_rows_ok _ H) as (t & P & L).
    exists t. simpl truthy. simpl negb. cbv iota. rewrite P.
    split; [reflexivity|exact L].
  - intros H. destruct data as [|c data]; [discriminate|].
    simpl truthy. simpl negb. cbv iota.
    rewrite (parse_csv_rows_short _ H). reflexivity.
Qed.

Lemma getStudents_outcome_witness :
  (exists t, getStudents (disk (Present long_row_file)) = Resolved t
             /\ length t = 1)
  /\ getStudents (disk (Present short_row_file)) = Uncaught TypeError.
Proof.
  split.
  - apply (proj1 (getStudents_outcome (disk (Present long_row_file))
                    long_row_file eq_refl)).
    reflexivity.
  - apply (proj2 (getStudents_outcome (disk (Present short_row_file))
                    short_row_file eq_refl)).
    reflexivity.
Defined.

(* ================================================================= *)
(** ** Objects: reading a property after writing one *)

Lemma obj_get_none_keys (k : string) (o : jsobj) :
  obj_get k o = None <-> existsb (String.eqb k) (keys o) = false.
Proof.
  induction o as [|[k' v'] o IH]; simpl; [tauto|].
  rewrite (String.eqb_sym k k').
  destruct (String.eqb k' k); simpl; [split; discriminate|exact IH].
Qed.

Lemma obj_get_in_keys (k : string) (o : jsobj) (v : jsval) :
  obj_get k o = Some v -> In k (keys o).
Proof.
  induction o as [|[k' v'] o IH]; simpl; [discriminate|].
  destruct (String.eqb k' k) eqn:E.
  - apply String.eqb_eq in E. left. exact E.
  - intros H. right. apply IH, H.
Qed.

Lemma in_keys_obj_get (k : string) (o : jsobj) :
  In k (keys o) -> exists v, obj_get k o = Some v.
Proof.
  induction o as [|[k' v'] o IH]; simpl; [contradiction|].
  intros [->|H].
  - rewrite String.eqb_refl. eexists. reflexivity.
  - destruct (String.eqb k' k); [eexists; reflexivity|apply IH, H].
Qed.

Lemma keys_obj_replace (k : string) (v : jsval) (o : jsobj) :
  keys (obj_replace k v o) = keys o.
Proof.
  induction o as [|[k' v'] o IH]; simpl; [reflexivity|].
  destruct (String.eqb k' k); simpl; [reflexivity|].
  f_equal. exact IH.
Qed.

Lemma obj_get_replace_same (k : string) (v v0 : jsval) (o : jsobj) :
  obj_get k o = Some v0 -> obj_get k (obj_replace k v o) = Some v.
Proof.
  induction o as [|[k' v'] o IH]; simpl; [discriminate|].
  destruct (String.eqb k' k) eqn:E; simpl; rewrite E; [reflexivity|].
  exact IH.
Qed.

Lemma obj_get_replace_other (k k' : string) (v : jsval) (o : jsobj) :
  k' <> k -> obj_get k' (obj_replace k v o) = obj_get k' o.
Proof.
  intros Hne. induction o as [|[k0 v0] o IH]; simpl; [reflexivity|].
  destruct (String.eqb k0 k) eqn:E; simpl.
  - apply String.eqb_eq in E. subst k0.
    apply not_eq_sym in Hne. apply String.eqb_neq in Hne.
    rewrite Hne. reflexivity.
  - rewrite IH. reflexivity.
Qed.

Lemma obj_get_insert_same (k : string) (v : jsval) (o : jsobj) :
  obj_get k o = None -> obj_get k (obj_insert k v o) = Some v.
Proof.
  induction o as [|[k' v'] o IH]; simpl.
  - intros _. rewrite String.eqb_refl. reflexivity.
  - destruct (String.eqb k' k) eqn:E; [discriminate|]. intros H.
    destruct (key_before k' k); simpl.
    + rewrite E. apply IH, H.
    + rewrite String.eqb_refl. reflexivity.
Qed.

Lemma obj_get_insert_other (k k' : string) (v : jsval) (o : jsobj) :
  k' <> k -> obj_get k' (obj_insert k v o) = obj_get k' o.
Proof.
  intros Hne. apply not_eq_sym in Hne. apply String.eqb_neq in Hne.
  induction o as [|[k0 v0] o IH]; simpl.
  - rewrite Hne. reflexivity.
  - destruct (key_before k0 k); simpl.
    + rewrite IH. reflexivity.
    + rewrite Hne. reflexivity.
Qed.

Lemma obj_get_set_same (k : string) (v : jsval) (o : jsobj) :
  obj_get k (obj_set k v o) = Some v.
Proof.
  unfold obj_set. destruct (obj_get k o) as [v0|] eqn:E.
  - apply (obj_get_replace_same k v v0 o E).
  - apply obj_get_insert_same, E.
Qed.

Lemma obj_get_set_other (k k' : string) (v : jsval) (o : jsobj) :
  k' <> k -> obj_get k' (obj_set k v o) = obj_get k' o.
Proof.
  intros Hne. unfold obj_set. destruct (obj_get k o).
  - apply obj_get_replace_other, Hne.
  - apply obj_get_insert_other, Hne.
Qed.

Lemma obj_get_assign_same (k : string) (v : jsval) (o : jsobj) :
  k <> "__proto__" -> obj_get k (obj_assign k v o) = Some v.
Proof.
  intros Hne. unfold obj_assign. apply String.eqb_neq in Hne.
  rewrite Hne. apply obj_get_set_same.
Qed.

Lemma obj_get_assign_other (k k' : string) (v : jsval) (o : jsobj) :
  k' <> k -> obj_get k' (obj_assign k v o) = obj_get k' o.
Proof.
  intros Hne. unfold obj_assign.
  destruct (String.eqb k "__proto__"); [reflexivity|].
  apply obj_get_set_other, Hne.
Qed.

Lemma existsb_keys_insert (x k : string) (v : jsval) (o : jsobj) :
  existsb (String.eqb x) (keys (obj_insert k v o))
  = String.eqb x k || existsb (String.eqb x) (keys o).
Proof.
  induction o as [|[k' v'] o IH]; simpl; [reflexivity|].
  destruct (key_before k' k); simpl; [|reflexivity].
  rewrite IH.
  destruct (String.eqb x k'), (String.eqb x k); reflexivity.
Qed.

Lemma distinct_keys_insert (k : string) (v : jsval) (o : jsobj) :
  distinct (keys o) = true ->
  existsb (String.eqb k) (keys o) = false ->
  distinct (keys (obj_insert k v o)) = true.
Proof.
  induction o as [|[k' v'] o IH]; simpl; [reflexivity|].
  rewrite andb_true_iff, negb_true_iff, orb_false_iff.
  intros [Hk' D] [Hk Ho].
  destruct (key_before k' k); simpl.
  - rewrite existsb_keys_insert, (String.eqb_sym k' k), Hk, Hk'.
    simpl. apply IH; assumption.
  - rewrite Hk, Ho, Hk', D. reflexivity.
Qed.

Lemma distinct_keys_assign (k : string) (v : jsval) (o : jsobj) :
  distinct (keys o) = true -> distinct (keys (obj_assign k v o)) = true.
Proof.
  intros D. unfold obj_assign, obj_set.
  destruct (String.eqb k "__proto__"); [exact D|].
  destruct (obj_get k o) eqn:E.
  - rewrite keys_obj_replace. exact D.
  - apply distinct_keys_insert; [exact D|].
    apply obj_get_none_keys, E.
Qed.

Lemma in_keys_insert (x k : string) (v : jsval) (o : jsobj) :
  In x (keys (obj_insert k v o)) -> x = k \/ In x (keys o).
Proof.
  induction o as [|[k' v'] o IH]; simpl.
  - intros [<-|[]]. left. reflexivity.
  - destruct (key_before k' k); simpl.
    + intros [<-|H]; [right; left; reflexivity|].
      destruct (IH H) as [->|H']; [left; reflexivity|right; right; exact H'].
    + intros [<-|H]; [left; reflexivity|right; exact H].
Qed.

Lemma in_keys_assign (x k : string) (v : jsval) (o : jsobj) :
  In x (keys (obj_assign k v o)) ->
  In x (keys o) \/ (x = k /\ k <> "__proto__").
Proof.
  unfold obj_assign, obj_set.
  destruct (String.eqb k "__proto__") eqn:P; [left; assumption|].
  apply String.eqb_neq in P.
  destruct (obj_get k o).
  - rewrite keys_obj_replace. left. assumption.
  - intros H. destruct (in_keys_insert _ _ _ _ H) as [->|H'];
      [right; split; [reflexivity|exact P]|left; exact H'].
Qed.

Lemma values_obj_replace (Q : jsval -> Prop) (k : string) (v : jsval)
    (o : jsobj) :
  Q v -> Forall Q (values o) -> Forall Q (values (obj_replace k v o)).
Proof.
  intros Hv. induction o as [|[k' v'] o IH]; simpl; [trivial|].
  intros H. inversion H as [|? ? Hv' Ho]; subst.
  destruct (String.eqb k' k); simpl; constructor; auto.
Qed.

Lemma values_obj_insert (Q : jsval -> Prop) (k : string) (v : jsval)
    (o : jsobj) :
  Q v -> Forall Q (values o) -> Forall Q (values (obj_insert k v o)).
Proof.
  intros Hv. induction o as [|[k' v'] o IH]; simpl.
  - intros _. constructor; [exact Hv|constructor].
  - intros H. inversion H as [|? ? Hv' Ho]; subst.
    destruct (key_before k' k); simpl; constructor; auto.
Qed.

Lemma values_obj_assign (Q : jsval -> Prop) (k : string) (v : jsval)
    (o : jsobj) :
  Q v -> Forall Q (values o) -> Forall Q (values (obj_assign k v o)).
Proof.
  intros Hv Ho. unfold obj_assign, obj_set.
  destruct (String.eqb k "__proto__"); [exact Ho|].
  destruct (obj_get k o).
  - apply values_obj_replace; assumption.
  - apply values_obj_insert; assumption.
Qed.

(* ================================================================= *)
(** ** Strings: what trim returns *)

Lemma trimStart_cases (s : string) :
  trimStart s = EmptyString \/ starts_solid (trimStart s) = true.
Proof.
  induction s as [|c s IH]; simpl; [left; reflexivity|].
  destruct (is_white c) eqn:E; [exact IH|].
  right. simpl. rewrite E. reflexivity.
Qed.

Lemma trimEnd_cases (s : string) :
  trimEnd s = EmptyString \/ ends_solid (trimEnd s) = true.
Proof.
  induction s as [|c s IH]; simpl; [left; reflexivity|].
  destruct (trimEnd s) as [|d r] eqn:E.
  - destruct (is_white c) eqn:W; [left; reflexivity|].
    right. simpl. rewrite W. reflexivity.
  - right. destruct IH as [IH|IH]; [discriminate|].
    apply ends_solid_cons, IH.
Qed.

Lemma trimEnd_starts (s : string) :
  starts_solid s = true -> starts_solid (trimEnd s) = true.
Proof.
  destruct s as [|c s]; simpl; [discriminate|].
  intros H. destruct (trimEnd s).
  - apply negb_true_iff in H. rewrite H. simpl. rewrite H. reflexivity.
  - exact H.
Qed.

Lemma trim_idempotent (s : string) : trim (trim s) = trim s.
Proof.
  unfold trim at 2 3.
  destruct (trimStart_cases s) as [E|E].
  - rewrite E. reflexivity.
  - apply trim_solid; [apply trimEnd_starts, E|].
    destruct (trimEnd_cases (trimStart s)) as [E'|E']; [|exact E'].
    apply trimEnd_starts in E. rewrite E' in E. discriminate.
Qed.

(* ================================================================= *)
(** ** getStudents: the fields of a loaded record *)

Lemma assign_fields_frame (headers : list string) (index : nat)
    (values : list string) (student student' : jsobj) (k : string) :
  assign_fields headers index values student = Ok student' ->
  (forall header, In header headers -> trim header <> k) ->
  obj_get k student' = obj_get k student.
Proof.
  revert index student.
  induction headers as [|header rest IH]; intros index student; simpl.
  - intros [= <-] _. reflexivity.
  - destruct (nth_error values index) as [value|]; [|discriminate].
    intros H Hk. rewrite (IH _ _ H).
    + apply obj_get_assign_other. apply not_eq_sym, Hk. left. reflexivity.
    + intros h Hh. apply Hk. right. exact Hh.
Qed.

Lemma assign_fields_lookup (headers : list string) (index : nat)
    (values : list string) (student student' : jsobj)
    (i : nat) (header : string) :
  assign_fields headers index values student = Ok student' ->
  nth_error headers i = Some header ->
  trim header <> "__proto__" ->
  (forall j later, i < j -> nth_error headers j = Some later ->
     trim later <> trim header) ->
  exists value,
    nth_error values (index + i) = Some value
    /\ obj_get (trim header) student' = Some (VStr (trim value)).
Proof.
  revert index student i.
  induction headers as [|h rest IH]; intros index student i; simpl.
  - intros _ Hi. destruct i; discriminate.
  - destruct (nth_error values index) as [value|] eqn:Ev; [|discriminate].
    intros H Hi Hp Hlast. destruct i as [|i].
    + injection Hi as ->. exists value. rewrite Nat.add_0_r.
      split; [exact Ev|].
      rewrite (assign_fields_frame _ _ _ _ _ (trim header) H).
      * apply obj_get_assign_same, Hp.
      * intros later Hin. apply In_nth_error in Hin as [j Hj].
        apply (Hlast (S j)); [lia|exact Hj].
    + simpl in Hi.
      destruct (IH (S index) _ i H Hi Hp) as (value' & Hv & Hg).
      * intros j later Hj Hl. apply (Hlast (S j)); [lia|exact Hl].
      * exists value'. split; [|exact Hg].
        rewrite <- Hv. f_equal. lia.
Qed.

Lemma assign_fields_distinct (headers : list string) (index : nat)
    (values : list string) (student student' : jsobj) :
  assign_fields headers index values student = Ok student' ->
  distinct (keys student) = true -> distinct (keys student') = true.
Proof.
  revert index student.
  induction headers as [|h rest IH]; intros index student; simpl.
  - intros [= <-]. trivial.
  - destruct (nth_error values index) as [value|]; [|discriminate].
    intros H D. apply (IH _ _ H), distinct_keys_assign, D.
Qed.

Lemma assign_fields_keys (headers : list string) (index : nat)
    (values : list string) (student student' : jsobj) (k : string) :
  assign_fields headers index values student = Ok student' ->
  In k (keys student') ->
  In k (keys student)
  \/ (k <> "__proto__" /\ exists h, In h headers /\ trim h = k).
Proof.
  revert index student.
  induction headers as [|h rest IH]; intros index student; simpl.
  - intros [= <-]. left. assumption.
  - destruct (nth_error values index) as [value|]; [|discriminate].
    intros H Hk. destruct (IH _ _ H Hk) as [Hin|(Hp & h' & Hh' & Ht)].
    + destruct (in_keys_assign _ _ _ _ Hin) as [Ho|[-> Hp]].
      * left. exact Ho.
      * right. split; [exact Hp|]. exists h. split; [left|]; reflexivity.
    + right. split; [exact Hp|]. exists h'. split; [right|]; assumption.
Qed.

Lemma assign_fields_values (headers : list string) (index : nat)
    (vals : list string) (student student' : jsobj) :
  assign_fields headers index vals student = Ok student' ->
  Forall trimmed_string (values student) ->
  Forall trimmed_string (values student').
Proof.
  revert index student.
  induction headers as [|h rest IH]; intros index student; simpl.
  - intros [= <-]. trivial.
  - destruct (nth_error vals index) as [value|]; [|discriminate].
    intros H F. apply (IH _ _ H), values_obj_assign; [|exact F].
    exists (trim value). split; [reflexivity|apply trim_idempotent].
Qed.

Lemma mapM_nth {A B} (f : A -> result B) (l : list A) (l' : list B)
    (n : nat) (y : B) :
  mapM f l = Ok l' -> nth_error l' n = Some y ->
  exists x, nth_error l n = Some x /\ f x = Ok y.
Proof.
  revert l' n. induction l as [|a l IH]; intros l' n; simpl.
  - intros [= <-]. destruct n; discriminate.
  - destruct (f a) as [b|e] eqn:Ea; simpl; [|discriminate].
    destruct (mapM f l) as [bs|e]; simpl; [|discriminate].
    intros [= <-]. destruct n as [|n]; simpl.
    + intros [= <-]. exists a. split; [reflexivity|exact Ea].
    + intros Hy. apply (IH bs n eq_refl Hy).
Qed.

Lemma getStudents_resolved_parse (w : world) (data : string)
    (t : list jsobj) :
  csv w = Present data -> getStudents w = Resolved t ->
  parse_csv data = Ok t.
Proof.
  intros Hw. unfold getStudents. rewrite Hw. simpl.
  destruct data as [|c data]; [intros [= <-]; reflexivity|].
  simpl truthy. simpl negb. cbv iota.
  destruct (parse_csv (String c data)); [|discriminate].
  intros [= <-]. reflexivity.
Qed.

(** X2: In a loaded table the n-th record comes from the n-th data row, and
    its field under a column name is the trimmed value at the position of
    the last header that trims to this name; values past the header's
    length play no part. *)
Theorem loaded_field_lookup (w : world) (data : string) (t : list jsobj)
    (n i : nat) (r : jsobj) (header : string) :
  csv w = Present data ->
  getStudents w = Resolved t ->
  nth_error t n = Some r ->
  nth_error (file_headers data) i = Some header ->
  trim header <> "__proto__" ->
  (forall j later, i < j -> nth_error (file_headers data) j = Some later ->
     trim later <> trim header) ->
  exists row value,
    nth_error (file_rows data) n = Some row
    /\ nth_error (split comma row) i = Some value
    /\ obj_get (trim header) r = Some (VStr (trim value)).
Proof.
  intros Hw L Hr Hi Hp Hlast.
  assert (P := getStudents_resolved_parse w data t Hw L).
  rewrite parse_csv_unfold in P.
  destruct (mapM_nth _ _ _ _ _ P Hr) as (row & Hrow & Frow).
  unfold parse_row in Frow.
  destruct (assign_fields_lookup _ _ _ _ _ i header Frow Hi Hp Hlast)
    as (value & Hv & Hg).
  exists row, value. split; [exact Hrow|]. split; [exact Hv|exact Hg].
Qed.

Lemma loaded_field_lookup_witness :
  exists row value,
    nth_error (file_rows long_row_file) 0 = Some row
    /\ nth_error (split comma row) 2 = Some value
    /\ obj_get (trim "name")
         [("name", VStr "B"); ("roll", VStr "1")]
       = Some (VStr (trim value)).
Proof.
  apply (loaded_field_lookup (disk (Present long_row_file)) long_row_file
           [[("name", VStr "B"); ("roll", VStr "1")]] 0 2 _ "name"
           eq_refl eq_refl eq_refl eq_refl).
  - discriminate.
  - intros j later Hj Hl. exfalso.
    assert (N : nth_error (file_headers long_row_file) j = None).
    { apply nth_error_None. simpl. lia. }
    congruence.
Defined.

(** X3: Every record of a loaded table has pairwise distinct field names, each
    of them a trimmed header name other than [__proto__], and every value
    is a string with no white space around it. *)
Theorem loaded_records_invariant (w : world) (data : string)
    (t : list jsobj) (r : jsobj) :
  csv w = Present data ->
  getStudents w = Resolved t ->
  In r t ->
  distinct (keys r) = true
  /\ (forall k, In k (keys r) ->
        k <> "__proto__"
        /\ exists h, In h (file_headers data) /\ trim h = k)
  /\ Forall trimmed_string (values r).
Proof.
  intros Hw L Hr.
  assert (P := getStudents_resolved_parse w data t Hw L).
  rewrite parse_csv_unfold in P.
  destruct (mapM_in _ _ _ _ P Hr) as (row & _ & Frow).
  unfold parse_row in Frow. split; [|split].
  - apply (assign_fields_distinct _ _ _ _ _ Frow). reflexivity.
  - intros k Hk.
    destruct (assign_fields_keys _ _ _ _ _ k Frow Hk) as [[]|H]. exact H.
  - apply (assign_fields_values _ _ _ _ _ Frow). constructor.
Qed.

Lemma loaded_records_invariant_witness :
  distinct (keys [("name", VStr "B"); ("roll", VStr "1")]) = true
  /\ (forall k, In k (keys [("name", VStr "B"); ("roll", VStr "1")]) ->
        k <> "__proto__"
        /\ exists h, In h (file_headers long_row_file) /\ trim h = k)
  /\ Forall trimmed_string (values [("name", VStr "B"); ("roll", VStr "1")]).
Proof.
  apply (loaded_records_invariant (disk (Present long_row_file))
           long_row_file [[("name", VStr "B"); ("roll", VStr "1")]]
           _ eq_refl eq_refl (or_introl eq_refl)).
Defined.

(* ================================================================= *)
(** ** getStudents: white space round the file, files of one line *)

Lemma trimStart_all_white (s : string) :
  all_white s = true -> trimStart s = EmptyString.
Proof.
  induction s as [|c s IH]; simpl; [reflexivity|].
  intros H. apply andb_true_iff in H as [Hc Hs]. rewrite Hc. apply IH, Hs.
Qed.

Lemma trimEnd_all_white (s : string) :
  all_white s = true -> trimEnd s = EmptyString.
Proof.
  induction s as [|c s IH]; simpl; [reflexivity|].
  intros H. apply andb_true_iff in H as [Hc Hs].
  rewrite (IH Hs), Hc. reflexivity.
Qed.

Lemma trimStart_app_white (pre s : string) :
  all_white pre = true -> trimStart (pre ++ s) = trimStart s.
Proof.
  induction pre as [|c pre IH]; simpl; [reflexivity|].
  intros H. apply andb_true_iff in H as [Hc Hs]. rewrite Hc. apply IH, Hs.
Qed.

Lemma trimEnd_app_white (s suf : string) :
  all_white suf = true -> trimEnd (s ++ suf) = trimEnd s.
Proof.
  intros H. induction s as [|c s IH]; simpl.
  - apply trimEnd_all_white, H.
  - rewrite IH. reflexivity.
Qed.

Lemma trim_app_white (s suf : string) :
  all_white suf = true -> trim (s ++ suf) = trim s.
Proof.
  intros H. unfold trim. induction s as [|c s IH]; simpl.
  - rewrite (trimStart_all_white suf H). reflexivity.
  - destruct (is_white c); [exact IH|].
    apply (trimEnd_app_white (String c s) suf H).
Qed.

Lemma trim_surrounded (pre s suf : string) :
  all_white pre = true -> all_white suf = true ->
  trim (pre ++ s ++ suf) = trim s.
Proof.
  intros Hp Hs. rewrite <- (trim_app_white s suf Hs).
  unfold trim. rewrite (trimStart_app_white pre _ Hp). reflexivity.
Qed.

Lemma parse_csv_trim (data data' : string) :
  trim data' = trim data -> parse_csv data' = parse_csv data.
Proof. unfold parse_csv. intros ->. reflexivity. Qed.

(** X4: White space and blank lines before the header and after the last row
    do not change what a file loads as: with or without them the outcome
    of [getStudents] is the same. *)
Theorem getStudents_ignores_outer_space (w w' : world)
    (pre data suf : string) :
  all_white pre = true ->
  all_white suf = true ->
  csv w = Present data ->
  csv w' = Present (pre ++ data ++ suf) ->
  getStudents w' = getStudents w.
Proof.
  intros Hp Hs Hw Hw'.
  rewrite (getStudents_present w data Hw).
  rewrite (getStudents_present w' _ Hw').
  rewrite (parse_csv_trim data (pre ++ data ++ suf)); [reflexivity|].
  apply trim_surrounded; assumption.
Qed.

Lemma getStudents_ignores_outer_space_witness :
  getStudents (disk (Present padded_file))
  = getStudents (disk (Present names_file)).
Proof.
  apply (getStudents_ignores_outer_space (disk (Present names_file))
           (disk (Present padded_file))
           (String newline " ") names_file (String newline " ")
           eq_refl eq_refl eq_refl eq_refl).
Defined.

(** X5: A file that is one line once trimmed (nothing but white space, or a
    header and no data row) loads as the empty table, whatever that line
    holds. *)
Theorem header_only_file_is_empty (w : world) (data : string) :
  csv w = Present data ->
  no_char newline (trim data) = true ->
  getStudents w = Resolved [].
Proof.
  intros Hw H. rewrite (getStudents_present w data Hw).
  unfold parse_csv. rewrite (split_no_sep _ _ H). reflexivity.
Qed.

Lemma header_only_file_is_empty_witness :
  getStudents (disk (Present "roll;marks, anything at all")) = Resolved [].
Proof.
  apply (header_only_file_is_empty
           (disk (Present "roll;marks, anything at all")) _
           eq_refl eq_refl).
Defined.

(* ================================================================= *)
(** ** The router: one branch per request *)

Lemma server_cases (querystring_parse : string -> jsobj)
    (w : world) (req : request) :
  (known_route req = true
   /\ server querystring_parse w req
      = (w, Responded (mkResponse 204 cors NoBody)))
  \/ (known_route req = true
      /\ server querystring_parse w req = index_handler w)
  \/ (known_route req = true
      /\ server querystring_parse w req = list_handler w)
  \/ (known_route req = true /\ routed "POST" "/add" req
      /\ server querystring_parse w req
         = add_handler w (querystring_parse (body req)))
  \/ (known_route req = true
      /\ server querystring_parse w req
         = search_handler w (query_name req))
  \/ (known_route req = true
      /\ server querystring_parse w req = export_handler w)
  \/ (known_route req = true /\ routed "POST" "/upload" req
      /\ server querystring_parse w req = upload_handler w (body req))
  \/ (known_route req = false
      /\ server querystring_parse w req
         = (w, reply_json 404 (JMessage "Route not found"))).
Proof.
  unfold server, known_route, routed. cbv zeta.
  generalize (toUpperCase (method req)) as m.
  generalize (pathname req) as p. intros p m.
  destruct (m =? "OPTIONS")%string;
    [left; split; reflexivity|].
  destruct ((p =? "/")%string && (m =? "GET")%string);
    [right; left; split; reflexivity|].
  destruct ((p =? "/students")%string && (m =? "GET")%string);
    [do 2 right; left; split; reflexivity|].
  destruct ((p =? "/add")%string && (m =? "POST")%string) eqn:A.
  { apply andb_true_iff in A as [Ap Am].
    apply String.eqb_eq in Ap, Am.
    do 3 right; left. split; [reflexivity|]. split; [|reflexivity].
    split; assumption. }
  destruct ((p =? "/search")%string && (m =? "GET")%string);
    [do 4 right; left; split; reflexivity|].
  destruct ((p =? "/export")%string && (m =? "GET")%string);
    [do 5 right; left; split; reflexivity|].
  destruct ((p =? "/upload")%string && (m =? "POST")%string) eqn:U.
  { apply andb_true_iff in U as [Up Um].
    apply String.eqb_eq in Up, Um.
    do 6 right; left. split; [reflexivity|]. split; [|reflexivity].
    split; assumption. }
  do 7 right. split; reflexivity.
Qed.

(* ================================================================= *)
(** ** What a request can change and what it is answered with *)

Lemma set_csv_same (w : world) : set_csv (csv w) w = w.
Proof. destruct w. reflexivity. Qed.

Lemma write_csv_cases (data : string) (w : world) :
  (writable (csv w)
   /\ write_csv data w = (set_csv (Present data) w, Resolved tt))
  \/ (exists code, ~ writable (csv w)
      /\ write_csv data w = (w, Rejected (SysError code))).
Proof.
  destruct (csv w) as [| old |code| old code] eqn:E.
  - left. split; [exact I|]. unfold write_csv. rewrite E. reflexivity.
  - left. split; [exact I|]. unfold write_csv. rewrite E. reflexivity.
  - right. exists code. split; [intros []|].
    unfold write_csv. rewrite E. simpl. rewrite <- E, set_csv_same.
    reflexivity.
  - right. exists code. split; [intros []|].
    unfold write_csv. rewrite E. simpl. rewrite <- E, set_csv_same.
    reflexivity.
Qed.

Lemma add_handler_cases (w : world) (r : jsobj) :
  (exists t, getStudents w = Resolved t /\ writable (csv w)
     /\ add_handler w r
        = (emit "added" (set_csv (Present (serialize (t ++ [r]))) w),
           reply_json 201 (JAdded "Student added successfully" r)))
  \/ (exists e, add_handler w r = (w, add_failed e))
  \/ (exists e, add_handler w r = (w, Crashed e)).
Proof.
  unfold add_handler. destruct (getStudents w) as [t|e|e].
  - unfold add_store. rewrite saveStudents_writes.
    destruct (write_csv_cases (serialize (t ++ [r])) w)
      as [[Hw ->]|(code & _ & ->)].
    + left. exists t. split; [reflexivity|]. split; [exact Hw|reflexivity].
    + right. left. eexists. reflexivity.
  - right. left. exists e. reflexivity.
  - right. right. exists e. reflexivity.
Qed.

Lemma upload_handler_cases (w : world) (data : string) :
  upload_handler w data
  = (emit "imported" (set_csv (fst (writeFile (csv w) EmptyString)) w),
     reply_json 200 (JMessage "File uploaded successfully")).
Proof.
  unfold upload_handler. destruct (writeFile (csv w) EmptyString).
  reflexivity.
Qed.






Lemma handler_reply (code : nat) (ctype : string) (c : content)
    (r : response) :
  reply code ctype c = Responded r ->
  status r = code /\ exists rest, headers r = cors ++ rest.
Proof.
  unfold reply. intros [= <-]. split; [reflexivity|].
  eexists. reflexivity.
Qed.

Lemma list_handler_reply (w : world) (r : response) :
  snd (list_handler w) = Responded r ->
  In (status r) [200; 500] /\ exists rest, headers r = cors ++ rest.
Proof.
  unfold list_handler. destruct (getStudents w); simpl; intros H;
    try discriminate;
    apply handler_reply in H as [<- C]; (split; [simpl; tauto|exact C]).
Qed.

Lemma add_handler_reply (w : world) (s : jsobj) (r : response) :
  snd (add_handler w s) = Responded r ->
  In (status r) [201; 500] /\ exists rest, headers r = cors ++ rest.
Proof.
  destruct (add_handler_cases w s) as [(t & _ & _ & ->)|[[e ->]|[e ->]]];
    simpl; intros H; try discriminate;
    apply handler_reply in H as [<- C]; (split; [simpl; tauto|exact C]).
Qed.

Lemma search_handler_reply (w : world) (name : option jsval)
    (r : response) :
  snd (search_handler w name) = Responded r ->
  In (status r) [200; 400; 500] /\ exists rest, headers r = cors ++ rest.
Proof.
  unfold search_handler. destruct name as [q|].
  - destruct (missing (Some q)).
    + simpl. intros H. apply handler_reply in H as [<- C].
      split; [simpl; tauto|exact C].
    + destruct (getStudents w) as [t|e|e];
        [destruct (filterM (name_matches q) t)| |]; simpl; intros H;
        try discriminate;
        apply handler_reply in H as [<- C]; (split; [simpl; tauto|exact C]).
  - simpl. intros H. apply handler_reply in H as [<- C].
    split; [simpl; tauto|exact C].
Qed.

Lemma export_handler_reply (w : world) (r : response) :
  snd (export_handler w) = Responded r ->
  In (status r) [200] /\ exists rest, headers r = cors ++ rest.
Proof.
  unfold export_handler. destruct (readFile (csv w)); simpl;
    [|discriminate].
  intros [= <-]. split; [simpl; tauto|]. eexists. reflexivity.
Qed.

Lemma upload_handler_reply (w : world) (data : string) (r : response) :
  snd (upload_handler w data) = Responded r ->
  In (status r) [200; 500] /\ exists rest, headers r = cors ++ rest.
Proof.
  rewrite upload_handler_cases. simpl. intros H.
  apply handler_reply in H as [<- C]. split; [simpl; tauto|exact C].
Qed.

Lemma index_handler_reply (w : world) (r : response) :
  snd (index_handler w) = Responded r ->
  In (status r) [200; 500] /\ exists rest, headers r = cors ++ rest.
Proof.
  unfold index_handler. destruct (readFile (index_html w)); simpl;
    intros H; apply handler_reply in H as [<- C];
    (split; [simpl; tauto|exact C]).
Qed.

(** X9: Every response of the server, on every route and for successes and
    errors alike, starts with the three CORS headers. *)
Theorem responses_carry_cors (querystring_parse : string -> jsobj)
    (w : world) (req : request) (r : response) :
  snd (server querystring_parse w req) = Responded r ->
  exists rest, headers r = cors ++ rest.
Proof.
  destruct (server_cases querystring_parse w req)
    as [[_ ->]|[[_ ->]|[[_ ->]|[(_ & _ & ->)|[[_ ->]|[[_ ->]|
        [(_ & _ & ->)|[_ ->]]]]]]]]; intros H.
  - simpl in H. injection H as <-. exists []. reflexivity.
  - apply (index_handler_reply _ _ H).
  - apply (list_handler_reply _ _ H).
  - apply (add_handler_reply _ _ _ H).
  - apply (search_handler_reply _ _ _ H).
  - apply (export_handler_reply _ _ H).
  - apply (upload_handler_reply _ _ _ H).
  - simpl in H. apply (handler_reply _ _ _ _ H).
Qed.

Lemma responses_carry_cors_witness :
  exists rest,
    headers (mkResponse 500 (cors ++ [("Content-Type", "application/json")])
               (Json (JFailure "Error searching students" TypeError)))
    = cors ++ rest.
Proof.
  apply (responses_carry_cors form_B (disk (Present nameless_file))
           (mkRequest "GET" "/search" (Some (VStr "a")) EmptyString)).
  reflexivity.
Defined.

(** X10: The status of a response is 404 exactly when the request matches no
    branch of the router; a handler never answers 404 itself, and the
    statuses in use are 200, 201, 204, 400, 404 and 500. *)
Theorem not_found_iff_unknown_route (querystring_parse : string -> jsobj)
    (w : world) (req : request) (r : response) :
  snd (server querystring_parse w req) = Responded r ->
  (status r = 404 <-> known_route req = false)
  /\ In (status r) [200; 201; 204; 400; 404; 500].
Proof.
  assert (Known : forall l, known_route req = true ->
            In (status r) l -> ~ In 404 l ->
            (status r = 404 <-> known_route req = false)).
  { intros l K Hin Hl. split; [|congruence].
    intros E. rewrite E in Hin. contradiction. }
  destruct (server_cases querystring_parse w req)
    as [[K ->]|[[K ->]|[[K ->]|[(K & _ & ->)|[[K ->]|[[K ->]|
        [(K & _ & ->)|[K ->]]]]]]]]; intros H.
  - simpl in H. injection H as <-. simpl.
    split; [split; [discriminate|congruence]|tauto].
  - destruct (index_handler_reply _ _ H) as [S _].
    split; [apply (Known _ K S); simpl; lia|simpl in *; tauto].
  - destruct (list_handler_reply _ _ H) as [S _].
    split; [apply (Known _ K S); simpl; lia|simpl in *; tauto].
  - destruct (add_handler_reply _ _ _ H) as [S _].
    split; [apply (Known _ K S); simpl; lia|simpl in *; tauto].
  - destruct (search_handler_reply _ _ _ H) as [S _].
    split; [apply (Known _ K S); simpl; lia|simpl in *; tauto].
  - destruct (export_handler_reply _ _ H) as [S _].
    split; [apply (Known _ K S); simpl; lia|simpl in *; tauto].
  - destruct (upload_handler_reply _ _ _ H) as [S _].
    split; [apply (Known _ K S); simpl; lia|simpl in *; tauto].
  - simpl in H. apply handler_reply in H as [<- _].
    split; [split; [intros _; exact K|reflexivity]|simpl; tauto].
Qed.

Lemma not_found_iff_unknown_route_witness :
  status (mkResponse 404 (cors ++ [("Content-Type", "application/json")])
            (Json (JMessage "Route not found"))) = 404
  <-> known_route (mkRequest "GET" "/add" None EmptyString) = false.
Proof.
  apply (not_found_iff_unknown_route form_B (disk Absent)
           (mkRequest "GET" "/add" None EmptyString)).
  reflexivity.
Defined.

(* ================================================================= *)
(** ** saveStudents: the lines of the written file *)

Lemma newline_free_join (l : list string) :
  (forall s, In s l -> no_char newline s = true) ->
  no_char newline (join comma l) = true.
Proof.
  intros H. apply no_char_join; [reflexivity|].
  apply Forall_forall. exact H.
Qed.

(** X7: When no field name of the first record and no field value holds a
    newline, the text written for a non-empty table has one line with the
    field names of the first record, then one line per record, in table
    order. *)
Theorem saved_file_lines (t : list jsobj) :
  t <> [] ->
  (forall k, In k (keys (hd [] t)) -> no_char newline k = true) ->
  (forall r v, In r t -> In v (values r) ->
     no_char newline (to_str v) = true) ->
  split newline (serialize t) = header_line (hd [] t) :: map row_line t
  /\ length (split newline (serialize t)) = S (length t).
Proof.
  intros Hne K V.
  assert (E : split newline (serialize t)
              = header_line (hd [] t) :: map row_line t).
  { destruct t as [|first rest]; [congruence|].
    unfold serialize. rewrite csvContent_lines by discriminate.
    apply split_join; [discriminate|].
    constructor; [apply newline_free_join, K|].
    apply Forall_forall. intros s Hs.
    apply in_map_iff in Hs as (r & <- & Hr).
    apply newline_free_join. intros s Hs.
    apply in_map_iff in Hs as (v & <- & Hv). apply (V r v Hr Hv). }
  split; [exact E|]. rewrite E. simpl. rewrite length_map. reflexivity.
Qed.

Lemma saved_file_lines_witness :
  split newline (serialize [student_A; student_short])
  = ["name,roll,marks"; "A,1,90"; "C"]
  /\ length (split newline (serialize [student_A; student_short])) = 3.
Proof.
  apply (saved_file_lines [student_A; student_short]).
  - discriminate.
  - intros k [<-|[<-|[<-|[]]]]; reflexivity.
  - intros r v [<-|[<-|[]]] Hv; simpl in Hv;
      repeat (destruct Hv as [<-|Hv]; [reflexivity|]); contradiction.
Defined.

(* ================================================================= *)
(** ** Add: after an empty table, one after another, with a short record *)



(** X15: Two Add requests of which the first is over before the second starts
    keep both records: on a plain table [t] extended by a plain [r1], the
    file ends as the serialization of [t], [r1], [r2] in this order. *)
Theorem sequential_adds_keep_both (w : world) (t : list jsobj)
    (r1 r2 : jsobj) :
  getStudents w = Resolved t ->
  writable (csv w) ->
  wf_obj (hd [] (t ++ [r1])) = true ->
  forallb plain_key (keys (hd [] (t ++ [r1]))) = true ->
  (forall r, In r (t ++ [r1]) ->
     keys r = keys (hd [] (t ++ [r1]))
     /\ forallb plain_value (values r) = true) ->
  edges_kept (t ++ [r1]) ->
  exists w',
    run_adds [false; false; true; true] w (AddReceived r1) (AddReceived r2)
    = (w',
       AddFinished
         (reply_json 201 (JAdded "Student added successfully" r1)),
       AddFinished
         (reply_json 201 (JAdded "Student added successfully" r2)))
    /\ csv w' = Present (serialize (t ++ [r1] ++ [r2])).
Proof.
  intros L Hw W K U E.
  pose (w1 := emit "added" (set_csv (Present (serialize (t ++ [r1]))) w)).
  assert (S1 : add_store w t r1
               = (w1, reply_json 201
                        (JAdded "Student added successfully" r1)))
    by (apply add_store_writable, Hw).
  assert (L1 : getStudents w1 = Resolved (t ++ [r1])).
  { apply getStudents_serialized_plain; try assumption. reflexivity. }
  assert (S2 : add_store w1 (t ++ [r1]) r2
               = (emit "added"
                    (set_csv (Present (serialize ((t ++ [r1]) ++ [r2]))) w1),
                  reply_json 201
                    (JAdded "Student added successfully" r2)))
    by (apply add_store_writable; exact I).
  exists (emit "added"
            (set_csv (Present (serialize ((t ++ [r1]) ++ [r2]))) w1)).
  split.
  - cbn [run_adds add_step]. rewrite L. cbn [run_adds add_step].
    rewrite S1. cbn [run_adds add_step]. rewrite L1.
    cbn [run_adds add_step]. rewrite S2. reflexivity.
  - simpl. rewrite <- app_assoc. reflexivity.
Qed.

Lemma sequential_adds_keep_both_witness :
  exists w',
    run_adds [false; false; true; true] (disk Absent)
      (AddReceived student_A) (AddReceived student_B)
    = (w',
       AddFinished
         (reply_json 201 (JAdded "Student added successfully" student_A)),
       AddFinished
         (reply_json 201 (JAdded "Student added successfully" student_B)))
    /\ csv w' = Present (serialize ([] ++ [student_A] ++ [student_B])).
Proof.
  apply (sequential_adds_keep_both (disk Absent) [] student_A student_B
           eq_refl I eq_refl eq_refl).
  - intros r [<-|[]]. split; reflexivity.
  - left. simpl. lia.
Defined.





(* ================================================================= *)
(** ** Search with a repeated name parameter *)

Lemma name_matches_array (l : list string) (s : jsobj) :
  name_matches (VArr l) s = Throw TypeError.
Proof.
  unfold name_matches. destruct (obj_get "name" s) as [[n|a]|]; reflexivity.
Qed.

(** X17: When the query repeats [name], so that its value is an array, Search is
    not a 400: it answers 200 with the empty list on an empty table and
    500 on every other table, whatever the names are. *)
Theorem repeated_name_parameter (querystring_parse : string -> jsobj)
    (w : world) (req : request) (l : list string) (t : list jsobj) :
  routed "GET" "/search" req ->
  query_name req = Some (VArr l) ->
  getStudents w = Resolved t ->
  server querystring_parse w req
  = (w, match t with
        | [] => reply_json 200 (JList [])
        | _ :: _ =>
            reply_json 500 (JFailure "Error searching students" TypeError)
        end).
Proof.
  intros R Hq L. rewrite route_search by exact R. rewrite Hq.
  unfold search_handler. simpl missing. cbv iota. rewrite L.
  destruct t as [|s t]; [reflexivity|].
  simpl filterM. rewrite name_matches_array. reflexivity.
Qed.

Lemma repeated_name_parameter_witness :
  server form_B (disk (Present names_file))
    (mkRequest "GET" "/search" (Some (VArr ["ali"; "bob"])) EmptyString)
  = (disk (Present names_file),
     reply_json 500 (JFailure "Error searching students" TypeError)).
Proof.
  apply (repeated_name_parameter form_B (disk (Present names_file))
           (mkRequest "GET" "/search" (Some (VArr ["ali"; "bob"]))
              EmptyString)
           ["ali"; "bob"]
           [[("name", VStr "Alice")]; [("name", VStr "bob")]]
           (conj eq_refl eq_refl) eq_refl eq_refl).
Defined.

(* ================================================================= *)
(** ** Array-index keys: one numeral per index *)

Lemma digit_char_inj (c1 c2 : ascii) :
  is_digit c1 = true -> is_digit c2 = true ->
  nat_of_ascii c1 - 48 = nat_of_ascii c2 - 48 -> c1 = c2.
Proof.
  unfold is_digit. rewrite !andb_true_iff, !Nat.leb_le.
  intros [L1 _] [L2 _] E.
  rewrite <- (ascii_nat_embedding c1), <- (ascii_nat_embedding c2).
  f_equal. lia.
Qed.

Lemma digit_value_bound (c : ascii) :
  is_digit c = true -> (N.of_nat (nat_of_ascii c - 48) <= 9)%N.
Proof.
  unfold is_digit. rewrite andb_true_iff, !Nat.leb_le. lia.
Qed.

Lemma digits_bounds (s : string) (acc n : N) :
  digits_value acc s = Some n ->
  (acc * 10 ^ N.of_nat (String.length s) <= n
   /\ n < (acc + 1) * 10 ^ N.of_nat (String.length s))%N.
Proof.
  revert acc. induction s as [|c s IH]; intros acc; simpl digits_value.
  - intros [= <-]. simpl. lia.
  - destruct (is_digit c) eqn:D; [|discriminate]. intros H.
    apply IH in H. apply digit_value_bound in D.
    simpl String.length. rewrite Nat2N.inj_succ, N.pow_succ_r'.
    set (p := (10 ^ N.of_nat (String.length s))%N) in *.
    set (d := N.of_nat (nat_of_ascii c - 48)) in *.
    nia.
Qed.

Lemma digits_same_length (s1 s2 : string) (a b n : N) :
  String.length s1 = String.length s2 ->
  digits_value a s1 = Some n -> digits_value b s2 = Some n ->
  a = b /\ s1 = s2.
Proof.
  revert s2 a b.
  induction s1 as [|c1 s1 IH]; intros [|c2 s2] a b; simpl; try discriminate.
  - intros _ [= <-] [= <-]. split; reflexivity.
  - intros [= L].
    destruct (is_digit c1) eqn:D1; [|discriminate].
    destruct (is_digit c2) eqn:D2; [|discriminate].
    intros H1 H2. destruct (IH _ _ _ L H1 H2) as [E ->].
    assert (B1 := digit_value_bound c1 D1).
    assert (B2 := digit_value_bound c2 D2).
    assert (a = b
            /\ N.of_nat (nat_of_ascii c1 - 48)
               = N.of_nat (nat_of_ascii c2 - 48)) as [-> Ed] by lia.
    split; [reflexivity|]. f_equal.
    apply digit_char_inj; [assumption|assumption|lia].
Qed.

Lemma array_index_inv (k : string) (n : N) :
  array_index k = Some n ->
  exists c rest,
    k = String c rest
    /\ is_digit c = true
    /\ (c = "0"%char -> rest = EmptyString)
    /\ digits_value 0 k = Some n.
Proof.
  unfold array_index. destruct k as [|c rest]; [discriminate|].
  destruct (Ascii.eqb c "0" && truthy rest) eqn:Z; [discriminate|].
  destruct (10 <? String.length (String c rest)); [discriminate|].
  destruct (digits_value 0 (String c rest)) as [m|] eqn:V; [|discriminate].
  destruct (m <? 4294967295)%N; [|discriminate].
  intros [= <-]. exists c, rest. split; [reflexivity|].
  split.
  - simpl in V. destruct (is_digit c); [reflexivity|discriminate].
  - split; [|reflexivity]. intros ->. simpl in Z.
    destruct rest; [reflexivity|discriminate].
Qed.

Lemma leading_digit_zero (c : ascii) :
  is_digit c = true -> N.of_nat (nat_of_ascii c - 48) = 0%N ->
  c = "0"%char.
Proof.
  intros D E. apply digit_char_inj; [exact D|reflexivity|].
  simpl. lia.
Qed.

Lemma canonical_length (c1 c2 : ascii) (r1 r2 : string) (n : N) :
  is_digit c1 = true -> is_digit c2 = true ->
  (c1 = "0"%char -> r1 = EmptyString) ->
  digits_value 0 (String c1 r1) = Some n ->
  digits_value 0 (String c2 r2) = Some n ->
  String.length r1 <= String.length r2.
Proof.
  intros D1 D2 Z1 V1 V2. simpl in V1, V2. rewrite D1 in V1. rewrite D2 in V2.
  apply digits_bounds in V1. apply digits_bounds in V2.
  assert (B2 := digit_value_bound c2 D2).
  set (d1 := N.of_nat (nat_of_ascii c1 - 48)) in *.
  set (d2 := N.of_nat (nat_of_ascii c2 - 48)) in *.
  destruct (N.eq_dec d1 0) as [E|E].
  - rewrite (Z1 (leading_digit_zero c1 D1 E)). simpl. lia.
  - assert (P : (10 ^ N.of_nat (String.length r1)
                 < 10 ^ N.of_nat (S (String.length r2)))%N).
    { rewrite Nat2N.inj_succ, N.pow_succ_r'.
      set (p1 := (10 ^ N.of_nat (String.length r1))%N) in *.
      set (p2 := (10 ^ N.of_nat (String.length r2))%N) in *.
      nia. }
    apply N.pow_lt_mono_r_iff in P; lia.
Qed.

Lemma array_index_inj (a b : string) (n : N) :
  array_index a = Some n -> array_index b = Some n -> a = b.
Proof.
  intros Ha Hb.
  apply array_index_inv in Ha as (c1 & r1 & -> & D1 & Z1 & V1).
  apply array_index_inv in Hb as (c2 & r2 & -> & D2 & Z2 & V2).
  assert (L : String.length (String c1 r1) = String.length (String c2 r2)).
  { assert (L1 := canonical_length c1 c2 r1 r2 n D1 D2 Z1 V1 V2).
    assert (L2 := canonical_length c2 c1 r2 r1 n D2 D1 Z2 V2 V1).
    simpl. lia. }
  apply (digits_same_length _ _ 0%N 0%N n L V1 V2).
Qed.

(* ================================================================= *)
(** ** Objects: assignment keeps the property order *)

Lemma key_before_flip (k k' : string) :
  key_before k' k = false -> k <> k' ->
  key_before k k' = true
  /\ forall x, key_before k' x = true -> key_before k x = true.
Proof.
  unfold key_before. intros H Hne.
  destruct (array_index k') as [m|] eqn:Em;
    destruct (array_index k) as [n|] eqn:En; try discriminate.
  - apply N.ltb_ge in H.
    assert (n <> m).
    { intros ->. apply Hne. apply (array_index_inj _ _ m En Em). }
    split; [apply N.ltb_lt; lia|].
    intros x. destruct (array_index x) as [p|]; [|trivial].
    rewrite !N.ltb_lt. lia.
  - split; [reflexivity|].
    intros x. destruct (array_index x); [discriminate|trivial].
Qed.

Lemma forallb_keys_insert (f : string -> bool) (k : string) (v : jsval)
    (o : jsobj) :
  forallb f (keys (obj_insert k v o)) = f k && forallb f (keys o).
Proof.
  induction o as [|[k' v'] o IH]; simpl; [reflexivity|].
  destruct (key_before k' k); simpl; [|reflexivity].
  rewrite IH. destruct (f k'), (f k); reflexivity.
Qed.

Lemma js_ordered_insert (k : string) (v : jsval) (o : jsobj) :
  js_ordered (keys o) = true ->
  obj_get k o = None ->
  js_ordered (keys (obj_insert k v o)) = true.
Proof.
  induction o as [|[k' v'] o IH]; simpl; [reflexivity|].
  rewrite andb_true_iff. intros [F O].
  destruct (String.eqb k' k) eqn:E; [discriminate|]. intros G.
  apply String.eqb_neq in E.
  destruct (key_before k' k) eqn:B; simpl.
  - rewrite forallb_keys_insert, B, F. simpl. apply IH; assumption.
  - destruct (key_before_flip k k' B (not_eq_sym E)) as [B1 B2].
    rewrite B1, F, O. simpl. rewrite andb_true_r.
    rewrite forallb_forall in F |- *. intros x Hx. apply B2, F, Hx.
Qed.

Lemma wf_obj_assign (k : string) (v : jsval) (o : jsobj) :
  wf_obj o = true -> wf_obj (obj_assign k v o) = true.
Proof.
  unfold wf_obj. rewrite !andb_true_iff. intros [D O]. split.
  - apply distinct_keys_assign, D.
  - unfold obj_assign, obj_set.
    destruct (String.eqb k "__proto__"); [exact O|].
    destruct (obj_get k o) eqn:G.
    + rewrite keys_obj_replace. exact O.
    + apply js_ordered_insert; assumption.
Qed.

Lemma assign_fields_wf (headers : list string) (index : nat)
    (values : list string) (student student' : jsobj) :
  assign_fields headers index values student = Ok student' ->
  wf_obj student = true -> wf_obj student' = true.
Proof.
  revert index student.
  induction headers as [|h rest IH]; intros index student; simpl.
  - intros [= <-]. trivial.
  - destruct (nth_error values index) as [value|]; [|discriminate].
    intros H W. apply (IH _ _ H), wf_obj_assign, W.
Qed.

(* ================================================================= *)
(** ** Loaded tables are plain *)

Lemma keys_obj_insert_ext (k : string) (v1 v2 : jsval) (o1 o2 : jsobj) :
  keys o1 = keys o2 ->
  keys (obj_insert k v1 o1) = keys (obj_insert k v2 o2).
Proof.
  revert o2. induction o1 as [|[k1 x1] o1 IH]; intros [|[k2 x2] o2];
    simpl; try discriminate; [reflexivity|].
  intros [= -> E]. destruct (key_before k2 k); simpl.
  - f_equal. apply IH, E.
  - f_equal. f_equal. exact E.
Qed.

Lemma obj_get_none_ext (k : string) (o1 o2 : jsobj) :
  keys o1 = keys o2 -> obj_get k o1 = None -> obj_get k o2 = None.
Proof.
  intros E H. apply obj_get_none_keys. rewrite <- E.
  apply obj_get_none_keys, H.
Qed.

Lemma keys_obj_assign_ext (k : string) (v1 v2 : jsval) (o1 o2 : jsobj) :
  keys o1 = keys o2 ->
  keys (obj_assign k v1 o1) = keys (obj_assign k v2 o2).
Proof.
  intros E. unfold obj_assign, obj_set.
  destruct (String.eqb k "__proto__"); [exact E|].
  destruct (obj_get k o1) eqn:G1; destruct (obj_get k o2) eqn:G2.
  - rewrite !keys_obj_replace. exact E.
  - rewrite (obj_get_none_ext k o2 o1 (eq_sym E) G2) in G1. discriminate.
  - rewrite (obj_get_none_ext k o1 o2 E G1) in G2. discriminate.
  - apply keys_obj_insert_ext, E.
Qed.

Lemma assign_fields_keys_ext (headers : list string) (i1 i2 : nat)
    (vals1 vals2 : list string) (s1 s2 r1 r2 : jsobj) :
  assign_fields headers i1 vals1 s1 = Ok r1 ->
  assign_fields headers i2 vals2 s2 = Ok r2 ->
  keys s1 = keys s2 -> keys r1 = keys r2.
Proof.
  revert i1 i2 s1 s2.
  induction headers as [|h rest IH]; intros i1 i2 s1 s2; simpl.
  - intros [= <-] [= <-]. trivial.
  - destruct (nth_error vals1 i1) as [x1|]; [|discriminate].
    destruct (nth_error vals2 i2) as [x2|]; [|discriminate].
    intros H1 H2 E. apply (IH _ _ _ _ H1 H2), keys_obj_assign_ext, E.
Qed.

Lemma assign_fields_values_from (Q : jsval -> Prop) (headers : list string)
    (index : nat) (vals : list string) (student student' : jsobj) :
  (forall value, In value vals -> Q (VStr (trim value))) ->
  assign_fields headers index vals student = Ok student' ->
  Forall Q (values student) -> Forall Q (values student').
Proof.
  intros HQ. revert index student.
  induction headers as [|h rest IH]; intros index student; simpl.
  - intros [= <-]. trivial.
  - destruct (nth_error vals index) as [value|] eqn:E; [|discriminate].
    intros H F. apply (IH _ _ H), values_obj_assign; [|exact F].
    apply HQ. apply (nth_error_In _ _ E).
Qed.

Lemma split_pieces_no_sep (c : ascii) (s : string) :
  Forall (fun piece => no_char c piece = true) (split c s).
Proof.
  induction s as [|a s IH]; simpl; [repeat constructor|].
  destruct (Ascii.eqb a c) eqn:E; [constructor; [reflexivity|exact IH]|].
  destruct (split c s) as [|piece rest]; [repeat constructor; simpl|].
  - rewrite E. reflexivity.
  - inversion IH as [|? ? Hp Hr]; subst. constructor; [|exact Hr].
    simpl. rewrite E, Hp. reflexivity.
Qed.

Lemma split_pieces_keep_free (c d : ascii) (s : string) :
  no_char d s = true ->
  Forall (fun piece => no_char d piece = true) (split c s).
Proof.
  induction s as [|a s IH]; simpl; [repeat constructor|].
  rewrite andb_true_iff. intros [Ha Hs]. specialize (IH Hs).
  destruct (Ascii.eqb a c); [constructor; [reflexivity|exact IH]|].
  destruct (split c s) as [|piece rest].
  - repeat constructor. simpl. rewrite Ha. reflexivity.
  - inversion IH as [|? ? Hp Hr]; subst. constructor; [|exact Hr].
    simpl. rewrite Ha, Hp. reflexivity.
Qed.

Lemma no_char_trimStart (c : ascii) (s : string) :
  no_char c s = true -> no_char c (trimStart s) = true.
Proof.
  induction s as [|a s IH]; simpl; [trivial|].
  rewrite andb_true_iff. intros [Ha Hs].
  destruct (is_white a); [apply IH, Hs|].
  simpl. rewrite Ha, Hs. reflexivity.
Qed.

Lemma no_char_trimEnd (c : ascii) (s : string) :
  no_char c s = true -> no_char c (trimEnd s) = true.
Proof.
  induction s as [|a s IH]; simpl; [trivial|].
  rewrite andb_true_iff. intros [Ha Hs]. specialize (IH Hs).
  destruct (trimEnd s) as [|b r].
  - destruct (is_white a); [reflexivity|].
    simpl. rewrite Ha. reflexivity.
  - change (no_char c (String a (String b r)) = true).
    simpl in IH |- *. rewrite Ha. exact IH.
Qed.

Lemma no_char_trim (c : ascii) (s : string) :
  no_char c s = true -> no_char c (trim s) = true.
Proof. intros H. apply no_char_trimEnd, no_char_trimStart, H. Qed.

Lemma file_lines_headers (data : string) :
  In (hd EmptyString (file_lines data)) (file_lines data)
  /\ forall row, In row (file_rows data) -> In row (file_lines data).
Proof.
  unfold file_rows. destruct (file_lines data) as [|first rows] eqn:E.
  - elim (split_not_nil _ _ E).
  - split; [left; reflexivity|]. intros row H. right. exact H.
Qed.

Lemma in_split_no_sep (c : ascii) (s piece : string) :
  In piece (split c s) -> no_char c piece = true.
Proof.
  apply (proj1 (Forall_forall _ _) (split_pieces_no_sep c s)).
Qed.

Lemma in_split_keep_free (c d : ascii) (s piece : string) :
  no_char d s = true -> In piece (split c s) -> no_char d piece = true.
Proof.
  intros H. apply (proj1 (Forall_forall _ _) (split_pieces_keep_free c d s H)).
Qed.

Lemma header_field_plain (data h : string) :
  In h (file_headers data) ->
  no_char comma (trim h) = true /\ no_char newline (trim h) = true.
Proof.
  intros H. unfold file_headers in H. split; apply no_char_trim.
  - apply (in_split_no_sep comma (hd EmptyString (file_lines data)) h H).
  - apply (in_split_keep_free comma newline
             (hd EmptyString (file_lines data)) h); [|exact H].
    apply (in_split_no_sep newline (trim data)).
    apply (proj1 (file_lines_headers data)).
Qed.

Lemma row_field_plain (data row value : string) :
  In row (file_rows data) -> In value (split comma row) ->
  plain_value (VStr (trim value)) = true.
Proof.
  intros Hr Hv. simpl. rewrite !andb_true_iff. repeat split.
  - apply no_char_trim, (in_split_no_sep comma row value Hv).
  - apply no_char_trim.
    apply (in_split_keep_free comma newline row value); [|exact Hv].
    apply (in_split_no_sep newline (trim data)).
    apply (proj2 (file_lines_headers data)), Hr.
  - apply String.eqb_eq, trim_idempotent.
Qed.

Lemma loaded_record_plain (data row : string) (r : jsobj) :
  In row (file_rows data) ->
  parse_row (file_headers data) row = Ok r ->
  wf_obj r = true
  /\ forallb plain_key (keys r) = true
  /\ forallb plain_value (values r) = true.
Proof.
  intros Hrow P. unfold parse_row in P. split; [|split].
  - apply (assign_fields_wf _ _ _ _ _ P). reflexivity.
  - apply forallb_forall. intros k Hk.
    destruct (assign_fields_keys _ _ _ _ _ k P Hk)
      as [[]|(Hp & h & Hh & <-)].
    destruct (header_field_plain data h Hh) as [Hc Hn].
    unfold plain_key. rewrite Hc, Hn. simpl.
    apply andb_true_iff. split.
    + apply String.eqb_eq, trim_idempotent.
    + apply negb_true_iff, String.eqb_neq, Hp.
  - apply forallb_forall. apply Forall_forall.
    apply (assign_fields_values_from
             (fun v => plain_value v = true) _ _ _ _ _
             (fun value Hv => row_field_plain data row value Hrow Hv) P).
    constructor.
Qed.

Lemma loaded_table_plain (data : string) (t : list jsobj) :
  parse_csv data = Ok t ->
  wf_obj (hd [] t) = true
  /\ forallb plain_key (keys (hd [] t)) = true
  /\ forall r, In r t ->
       keys r = keys (hd [] t) /\ forallb plain_value (values r) = true.
Proof.
  rewrite parse_csv_unfold. intros P.
  assert (Each : forall r, In r t ->
            exists row, In row (file_rows data)
                        /\ parse_row (file_headers data) row = Ok r).
  { intros r Hr. apply (mapM_in _ _ _ _ P Hr). }
  destruct t as [|first rest]; [repeat split; contradiction|].
  destruct (Each first (or_introl eq_refl)) as (row0 & Hrow0 & P0).
  destruct (loaded_record_plain data row0 first Hrow0 P0) as (W & K & _).
  simpl hd. split; [exact W|]. split; [exact K|].
  intros r Hr. destruct (Each r Hr) as (row & Hrow & Pr).
  split.
  - apply (assign_fields_keys_ext _ _ _ _ _ _ _ _ _ Pr P0). reflexivity.
  - apply (loaded_record_plain data row r Hrow Pr).
Qed.


(** X6: Saving a table that was loaded from a file and loading it again gives
    the same table, whatever the file looked like, as long as [trim] keeps
    the edges of the new text (two columns or more, or one named column
    with a non-empty last value). *)
Theorem reload_after_save_is_stable (w w0 : world) (data : string)
    (t : list jsobj) :
  csv w = Present data ->
  getStudents w = Resolved t ->
  edges_kept t ->
  writable (csv w0) ->
  parse_csv (serialize t) = Ok t
  /\ getStudents (fst (saveStudents t w0)) = Resolved t.
Proof.
  intros Hw L E Hw0.
  assert (P := getStudents_resolved_parse w data t Hw L).
  destruct (loaded_table_plain data t P) as (W & K & U).
  assert (S : getStudents (fst (saveStudents t w0)) = Resolved t).
  { apply getStudents_serialized_plain; try assumption.
    rewrite saveStudents_writes, write_csv_writable by exact Hw0.
    reflexivity. }
  split; [|exact S].
  destruct t as [|first rest]; [reflexivity|].
  apply parse_csv_plain; assumption.
Qed.

Lemma reload_after_save_is_stable_witness :
  parse_csv (serialize [[("name", VStr "B"); ("roll", VStr "1")]])
  = Ok [[("name", VStr "B"); ("roll", VStr "1")]]
  /\ getStudents
       (fst (saveStudents [[("name", VStr "B"); ("roll", VStr "1")]]
               (disk Absent)))
     = Resolved [[("name", VStr "B"); ("roll", VStr "1")]].
Proof.
  apply (reload_after_save_is_stable (disk (Present long_row_file))
           (disk Absent) long_row_file _ eq_refl eq_refl).
  - left. simpl. lia.
  - exact I.
Defined.



(* ================================================================= *)
(** ** Add: a record with other field names *)










(* ================================================================= *)
(** ** Import, then Export *)



(* ================================================================= *)
(** ** Search and the header of the file *)





